(** * Caption post-processing and batch streaming of gpt-img

    Shallow embedding of
    - [formatCaption] and the [POST] route handler (app/api route, reproduced
      at the end of README.md),
    - [applyNegativeFilters] (src/lib/prompt-styles.ts),
    - the SSE reader loop of [handleSubmit] (src/components/ollama-form.tsx).

    Strings are JavaScript strings restricted to 8-bit code units (Stdlib
    [string] over [ascii]). Case mapping and regex word characters are
    modelled on the ASCII range, which is where JavaScript's [toUpperCase],
    [toLowerCase] and [\b] act on these code units, except for the Latin-1
    letters, whose case mapping is not modelled. *)

From Stdlib Require Import String Ascii List ZArith Bool Lia DecimalString DecimalN.
From Stdlib Require DecimalFacts.
Import ListNotations.
Local Open Scope string_scope.
Local Open Scope bool_scope.

(* ------------------------------------------------------------------ *)
(** ** Characters *)

(** JavaScript [\s] and the characters removed by [String.prototype.trim]:
    TAB, LF, VT, FF, CR, SPACE and NBSP among 8-bit code units. *)
Definition isWs (a : ascii) : bool :=
  let n := nat_of_ascii a in
  ((9 <=? n)%nat && (n <=? 13)%nat) || (n =? 32)%nat || (n =? 160)%nat.

Definition isLineTerminator (a : ascii) : bool :=
  let n := nat_of_ascii a in (n =? 10)%nat || (n =? 13)%nat.

Definition isComma (a : ascii) : bool := Ascii.eqb a ",".

Definition isCommaOrWs (a : ascii) : bool := isComma a || isWs a.

(** Regex word characters [A-Za-z0-9_], used by [\b]. *)
Definition isWordChar (a : ascii) : bool :=
  let n := nat_of_ascii a in
  ((65 <=? n)%nat && (n <=? 90)%nat) || ((97 <=? n)%nat && (n <=? 122)%nat)
  || ((48 <=? n)%nat && (n <=? 57)%nat) || (n =? 95)%nat.

Definition toLowerChar (a : ascii) : ascii :=
  let n := nat_of_ascii a in
  if (65 <=? n)%nat && (n <=? 90)%nat then ascii_of_nat (n + 32) else a.

Definition toUpperChar (a : ascii) : ascii :=
  let n := nat_of_ascii a in
  if (97 <=? n)%nat && (n <=? 122)%nat then ascii_of_nat (n - 32) else a.

(* ------------------------------------------------------------------ *)
(** ** String primitives *)

(** [s.replace(/^[p]+/, '')] *)
Fixpoint dropLeading (p : ascii -> bool) (s : string) : string :=
  match s with
  | EmptyString => EmptyString
  | String a r => if p a then dropLeading p r else s
  end.

(** [s.replace(/[p]+$/, '')] *)
Fixpoint dropTrailing (p : ascii -> bool) (s : string) : string :=
  match s with
  | EmptyString => EmptyString
  | String a r =>
      match dropTrailing p r with
      | EmptyString => if p a then EmptyString else String a EmptyString
      | t => String a t
      end
  end.

(** [s.trim()] *)
Definition trim (s : string) : string := dropTrailing isWs (dropLeading isWs s).

(** [s.replace(/\n/g, ' ')] *)
Fixpoint replaceNewlines (s : string) : string :=
  match s with
  | EmptyString => EmptyString
  | String a r =>
      String (if (nat_of_ascii a =? 10)%nat then " "%char else a) (replaceNewlines r)
  end.

(** [s.replace(/\s+/g, ' ')]; [inWs] records that the previous character
    belonged to a whitespace run already replaced by one space. *)
Fixpoint collapseWsFrom (inWs : bool) (s : string) : string :=
  match s with
  | EmptyString => EmptyString
  | String a r =>
      if isWs a then
        if inWs then collapseWsFrom true r else String " " (collapseWsFrom true r)
      else String a (collapseWsFrom false r)
  end.

Definition collapseWs (s : string) : string := collapseWsFrom false s.

(** [s.replace(/,\s*,/g, ',')]: matches are found left to right and do not
    overlap. [pending = Some buf] means a comma has just been emitted and
    [buf] holds the whitespace read since; a second comma completes a
    match, which is replaced by the comma already emitted. *)
Fixpoint collapseCommasFrom (pending : option string) (s : string) : string :=
  match s with
  | EmptyString =>
      match pending with None => EmptyString | Some buf => buf end
  | String a r =>
      match pending with
      | None =>
          if isComma a then String a (collapseCommasFrom (Some EmptyString) r)
          else String a (collapseCommasFrom None r)
      | Some buf =>
          if isWs a then collapseCommasFrom (Some (buf ++ String a EmptyString)) r
          else if isComma a then collapseCommasFrom None r
          else buf ++ String a (collapseCommasFrom None r)
      end
  end.

Definition collapseCommas (s : string) : string := collapseCommasFrom None s.

(** [s.charAt(0).toUpperCase() + s.slice(1)] *)
Definition upperFirst (s : string) : string :=
  match s with
  | EmptyString => EmptyString
  | String a r => String (toUpperChar a) r
  end.

(** [s.charAt(0).toLowerCase() + s.slice(1)] *)
Definition lowerFirst (s : string) : string :=
  match s with
  | EmptyString => EmptyString
  | String a r => String (toLowerChar a) r
  end.

(** [s.replace(/c$/, '')] for a single character class [p]: [$] without
    the [m] flag only matches at the end of the input. *)
Fixpoint dropLastIf (p : ascii -> bool) (s : string) : string :=
  match s with
  | EmptyString => EmptyString
  | String a EmptyString => if p a then EmptyString else s
  | String a r => String a (dropLastIf p r)
  end.

(** [s.replace(/^c/, '')] *)
Definition dropFirstIf (p : ascii -> bool) (s : string) : string :=
  match s with
  | String a r => if p a then r else s
  | EmptyString => EmptyString
  end.

(** [s.substring(0, k)]: a negative [k] counts as 0, a [k] past the end as
    the length. *)
Definition substring0 (k : Z) (s : string) : string :=
  substring 0 (Z.to_nat k) s.

(** [s.lastIndexOf(' ')], [-1] when there is no space. *)
Fixpoint lastIndexOfSpace (s : string) : Z :=
  match s with
  | EmptyString => (-1)%Z
  | String a r =>
      let k := lastIndexOfSpace r in
      if (0 <=? k)%Z then (k + 1)%Z
      else if Ascii.eqb a " " then 0%Z else (-1)%Z
  end.

(* ------------------------------------------------------------------ *)
(** ** [formatCaption] *)

(** The length limit of [formatCaption]:
<<
  if (maxChars && formatted.length > maxChars) {
    formatted = formatted.substring(0, maxChars).trim();
    const lastSpace = formatted.lastIndexOf(' ');
    if (lastSpace > maxChars * 0.8) formatted = formatted.substring(0, lastSpace).trim();
  }
>>
    [maxChars] comes from [parseInt]: [None] stands for [undefined] and
    [NaN], and [0] is falsy as well. The double product [maxChars * 0.8]
    is compared with an integer index; for [|maxChars| < 2^50] the
    comparison [lastSpace > maxChars * 0.8] has the truth value of
    [5 * lastSpace > 4 * maxChars], which is what is written here. *)
Definition applyLimit (maxChars : option Z) (formatted : string) : string :=
  match maxChars with
  | None => formatted
  | Some m =>
      if negb (m =? 0)%Z && (m <? Z.of_nat (String.length formatted))%Z then
        let cut := trim (substring0 m formatted) in
        let lastSpace := lastIndexOfSpace cut in
        if (4 * m <? 5 * lastSpace)%Z then trim (substring0 lastSpace cut) else cut
      else formatted
  end.

Definition formatCaption (caption prefix suffix : string) (maxChars : option Z) : string :=
  let trimmedPrefix := dropLastIf isComma (trim prefix) in
  let trimmedSuffix := dropFirstIf isComma (trim suffix) in
  let caption := lowerFirst caption in
  let caption := dropLastIf (fun a => Ascii.eqb a ".") caption in
  let prefixPart := if String.eqb trimmedPrefix "" then "" else trimmedPrefix ++ ", " in
  let suffixPart := if String.eqb trimmedSuffix "" then "" else ", " ++ trimmedSuffix in
  let formatted :=
    trim (collapseWs (replaceNewlines (prefixPart ++ caption ++ suffixPart))) in
  applyLimit maxChars formatted.

(* ------------------------------------------------------------------ *)
(** ** The phrase regex of [applyNegativeFilters]

    [new RegExp(`\\b${filter}\\b`, 'gi')] compiles the phrase unescaped.
    The fragment of the regex syntax modelled here is the one the phrases
    of the preset catalog use: characters that are not regex syntax, each
    matching itself up to case, and [.], which matches any character but
    a line terminator. *)
Inductive rtok : Type :=
| RChar (a : ascii)
| RAny.

Definition isRegexSyntax (a : ascii) : bool :=
  existsb (Ascii.eqb a)
    ["\"; "^"; "$"; "."; "|"; "?"; "*"; "+"; "("; ")"; "["; "]"; "{"; "}"]%char.

(** [Some toks] for a phrase in the modelled fragment. *)
Fixpoint compilePhrase (filter : string) : option (list rtok) :=
  match filter with
  | EmptyString => Some []
  | String a r =>
      match compilePhrase r with
      | None => None
      | Some ts =>
          if Ascii.eqb a "." then Some (RAny :: ts)
          else if isRegexSyntax a then None
          else Some (RChar a :: ts)
      end
  end.

(** Flag [i] without [u]: characters are compared after [toUpperCase]. *)
Definition tokMatches (t : rtok) (a : ascii) : bool :=
  match t with
  | RChar b => Ascii.eqb (toUpperChar b) (toUpperChar a)
  | RAny => negb (isLineTerminator a)
  end.

Definition wordAt (o : option ascii) : bool :=
  match o with Some a => isWordChar a | None => false end.

Definition headOpt (s : string) : option ascii :=
  match s with EmptyString => None | String a _ => Some a end.

(** [\b] between the character before a position and the one at it. *)
Definition boundary (before here : option ascii) : bool :=
  xorb (wordAt before) (wordAt here).

(** The tokens followed by [\b], at the start of [s]; [prev] is the
    character before. *)
Fixpoint matchToks (toks : list rtok) (prev : option ascii) (s : string) : bool :=
  match toks with
  | [] => boundary prev (headOpt s)
  | t :: ts =>
      match s with
      | EmptyString => false
      | String a r => tokMatches t a && matchToks ts (Some a) r
      end
  end.

(** [s.replace(re, '')] with the [g] flag: positions are tried left to
    right on the original string, and after a match of [n] characters the
    search resumes behind it ([skip] counts the characters of the current
    match still to delete). *)
Fixpoint replaceScan (toks : list rtok) (n skip : nat) (prev : option ascii)
    (s : string) : string :=
  match s with
  | EmptyString => EmptyString
  | String a r =>
      match skip with
      | S k => replaceScan toks n k (Some a) r
      | O =>
          if boundary prev (Some a) && matchToks toks prev s
          then replaceScan toks n (pred n) (Some a) r
          else String a (replaceScan toks n 0 (Some a) r)
      end
  end.

(** An empty pattern [\b\b] only has empty matches; deleting them leaves
    the string as it is. *)
Definition regexRemove (toks : list rtok) (s : string) : string :=
  match toks with
  | [] => s
  | _ => replaceScan toks (List.length toks) 0 None s
  end.

(** [cleaned.replace(new RegExp(`\\b${filter}\\b`, 'gi'), '')] for the
    phrases of the modelled fragment; other phrases (which the code also
    compiles as patterns, or on which [RegExp] throws) are left out of the
    model and leave the text unchanged here. *)
Definition removePhrase (filter cleaned : string) : string :=
  match compilePhrase filter with
  | Some toks => regexRemove toks cleaned
  | None => cleaned
  end.

(* ------------------------------------------------------------------ *)
(** ** [applyNegativeFilters] and the caption pipeline of [POST]

    The regex replacement of one phrase is a parameter here, so that the
    properties below hold whatever the regex engine does with a phrase;
    [removePhrase] is its model on the fragment above. *)
Section Pipeline.

Variable replacePhrase : string -> string -> string.

(** [for (const filter of filters) cleaned = cleaned.replace(regex, '').trim();] *)
Fixpoint removeFilters (filters : list string) (cleaned : string) : string :=
  match filters with
  | [] => cleaned
  | f :: fs => removeFilters fs (trim (replacePhrase f cleaned))
  end.

Definition applyNegativeFilters (caption : string) (filters : list string) : string :=
  let cleaned := removeFilters filters caption in
  let cleaned := collapseWs cleaned in
  let cleaned := collapseCommas cleaned in
  let cleaned := dropLeading isCommaOrWs cleaned in
  let cleaned := dropTrailing isCommaOrWs cleaned in
  upperFirst cleaned.

(** The success branch of the [POST] loop, from the generated [text] to
    the caption sent to the client. *)
Definition processCaption (negativeFilters : list string) (prefix suffix : string)
    (maxChars : option Z) (text : string) : string :=
  let caption :=
    match negativeFilters with
    | [] => text
    | _ => applyNegativeFilters text negativeFilters
    end in
  formatCaption caption prefix suffix maxChars.

End Pipeline.

(** The pipeline with the phrase regex of the code. *)
Definition process : list string -> string -> string -> option Z -> string -> string :=
  processCaption removePhrase.

(* ------------------------------------------------------------------ *)
(** ** The [POST] stream loop *)

(** An uploaded [File]; only its name reaches the emitted events. *)
Record ImageFile : Type := mkImage {
  img_name : string;
  img_type : string;
  img_data : list ascii
}.

(** What [generateText] threw: an [Error] object, or any other value. *)
Inductive thrown : Type :=
| ThrownError (message : string)
| ThrownOther.

(** One call of [generateText]: the generated [text], or an exception. *)
Inductive genOutcome : Type :=
| Generated (text : string)
| Threw (e : thrown).

(** [error instanceof Error ? error.message : 'Unknown error occurred'] *)
Definition errorMessage (e : thrown) : string :=
  match e with
  | ThrownError m => m
  | ThrownOther => "Unknown error occurred"
  end.

(** The object [{ filename, caption }] serialised into one [data:] event. *)
Record event : Type := mkEvent {
  filename : string;
  caption : string
}.

Section Batch.

Variable replacePhrase : string -> string -> string.
(** [path.parse(name).name] *)
Variable baseName : string -> string.
(** The outcome of [generateText] in iteration [i] for image [img]. *)
Variable generate : nat -> ImageFile -> genOutcome.
Variable negativeFilters : list string.
Variables prefix suffix : string.
Variable maxChars : option Z.

(** The body of one iteration: the [try] block and its [catch]. *)
Definition itemEvent (i : nat) (image : ImageFile) : event :=
  let txtFilename := baseName (img_name image) ++ ".txt" in
  match generate i image with
  | Generated text =>
      mkEvent txtFilename
        (processCaption replacePhrase negativeFilters prefix suffix maxChars text)
  | Threw e => mkEvent txtFilename ("Error: " ++ errorMessage e)
  end.

(** [for (let i = 0; i < images.length; i++) { ... controller.enqueue(..) }]
    with the stream's queue as explicit state. *)
Fixpoint runFrom (i : nat) (images : list ImageFile) (queue : list event) : list event :=
  match images with
  | [] => queue
  | image :: rest => runFrom (S i) rest (queue ++ [itemEvent i image])
  end.

Definition runBatch (images : list ImageFile) : list event := runFrom 0 images [].

End Batch.

(* ------------------------------------------------------------------ *)
(** ** The client's reader of the event stream *)

(** How [handleSubmit] ends: [onSubmit(tempCaptions)] after the stream is
    done, or [onError(msg)] and [return] at the first error caption, after
    the captions already passed to [onProgress]. *)
Inductive readerResult : Type :=
| Submitted (captions : list event)
| Failed (message : string) (shown : list event).

(** [if (caption.startsWith('Error:')) { onError(caption.substring(7)); return; }
     else tempCaptions.push(..)] over the decoded events. *)
Fixpoint readEvents (tempCaptions : list event) (events : list event) : readerResult :=
  match events with
  | [] => Submitted tempCaptions
  | ev :: rest =>
      if String.prefix "Error:" (caption ev)
      then Failed (substring 7 (String.length (caption ev) - 7) (caption ev)) tempCaptions
      else readEvents (tempCaptions ++ [ev]) rest
  end.

(** [commonMetaPhrases] of src/lib/prompt-styles.ts. *)
Definition commonMetaPhrasesList : list string :=
  ["this image shows"; "the image depicts"; "this picture shows";
   "the picture depicts"; "the photo shows"; "this photo shows";
   "we can see"; "you can see"; "there is a"; "there are"; "it appears";
   "it seems"; "looking at"].

(* ------------------------------------------------------------------ *)
(** ** [maxChars] across the form and the route

    The forms send [if (data.maxChars) formData.append('maxChars',
    data.maxChars.toString())] (src/components/openai-form.tsx), and the
    route reads [formData.get('maxChars') ? parseInt(..) : undefined].
    Numbers are the integers the form's schema admits
    ([z.number().int().positive()]). *)

(** The decimal digits of a positive integer, without leading zeros. *)
Definition decimalDigits (p : positive) : string :=
  NilEmpty.string_of_uint (N.to_uint (Npos p)).

(** The exponent form of [Number::toString] from [10^21] on: the first
    digit, then ["."] and the further digits up to the last non-zero one
    (if any), then ["e+"] and the exponent. *)
Definition exponentForm (ds : string) : string :=
  match ds with
  | EmptyString => EmptyString
  | String d rest =>
      let frac := dropTrailing (fun a => Ascii.eqb a "0") rest in
      String d ((if String.eqb frac "" then "" else String "." frac) ++
                "e+" ++ NilEmpty.string_of_uint (Nat.to_uint (String.length rest)))
  end.

(** [Number::toString] of a positive integer: its decimal digits below
    [10^21], the exponent form from [10^21] on. For [2^53 < n] a [Number]
    holds the nearest double, whose shortest digits the model does not
    compute: it keeps the exact digits of [n] there, with the same first
    digit and the same form; no property below depends on the digits
    after the first in that range. *)
Definition unsignedToString (p : positive) : string :=
  if (Zpos p <? 10 ^ 21)%Z then decimalDigits p else exponentForm (decimalDigits p).

(** [n.toString()] for an integer [n]. *)
Definition numberToString (n : Z) : string :=
  match n with
  | Z0 => "0"
  | Zpos p => unsignedToString p
  | Zneg p => String "-" (unsignedToString p)
  end.

Definition isDecDigit (a : ascii) : bool :=
  let n := nat_of_ascii a in (48 <=? n)%nat && (n <=? 57)%nat.

Definition hexDigitValue (a : ascii) : option Z :=
  let n := nat_of_ascii a in
  if (48 <=? n)%nat && (n <=? 57)%nat then Some (Z.of_nat (n - 48))
  else if (97 <=? n)%nat && (n <=? 102)%nat then Some (Z.of_nat (n - 87))
  else if (65 <=? n)%nat && (n <=? 70)%nat then Some (Z.of_nat (n - 55))
  else None.

Definition isHexDigit (a : ascii) : bool :=
  match hexDigitValue a with Some _ => true | None => false end.

Fixpoint takeWhileStr (p : ascii -> bool) (s : string) : string :=
  match s with
  | EmptyString => EmptyString
  | String a r => if p a then String a (takeWhileStr p r) else EmptyString
  end.

Fixpoint hexValue (acc : Z) (s : string) : Z :=
  match s with
  | EmptyString => acc
  | String a r =>
      match hexDigitValue a with
      | Some d => hexValue (16 * acc + d)%Z r
      | None => acc
      end
  end.

(** The rest of [s] behind a ["0x"] or ["0X"] prefix. *)
Definition hexPrefix (s : string) : option string :=
  match s with
  | String z (String x r) =>
      if Ascii.eqb z "0" && (Ascii.eqb x "x" || Ascii.eqb x "X") then Some r else None
  | _ => None
  end.

(** Step 2 of [parseInt]: an optional sign; [-1] for ["-"]. *)
Definition splitSign (s1 : string) : Z * string :=
  match s1 with
  | String a r =>
      if Ascii.eqb a "-" then ((-1)%Z, r)
      else if Ascii.eqb a "+" then (1%Z, r) else (1%Z, s1)
  | EmptyString => (1%Z, s1)
  end.

(** The unsigned part of [parseInt]: radix 16 behind ["0x"] or ["0X"],
    otherwise radix 10; the longest digit prefix, [None] (NaN) if it is
    empty. *)
Definition parseUnsigned (s2 : string) : option Z :=
  match hexPrefix s2 with
  | Some r =>
      let ds := takeWhileStr isHexDigit r in
      if String.eqb ds "" then None else Some (hexValue 0 ds)
  | None =>
      let ds := takeWhileStr isDecDigit s2 in
      if String.eqb ds "" then None
      else option_map (fun d => Z.of_N (N.of_uint d)) (NilEmpty.uint_of_string ds)
  end.

(** [parseInt(s)] without radix: leading whitespace skipped, the sign, the
    digits; [None] is [NaN]. *)
Definition parseInt (s : string) : option Z :=
  let '(sign, s2) := splitSign (dropLeading isWs s) in
  option_map (fun v => sign * v)%Z (parseUnsigned s2).

(** The [maxChars] field the forms send for the form value [v]. *)
Definition clientMaxCharsField (v : option Z) : option string :=
  match v with
  | Some n => if (n =? 0)%Z then None else Some (numberToString n)
  | None => None
  end.

(** [formData.get('maxChars') ? parseInt(formData.get('maxChars')) : undefined] *)
Definition routeMaxChars (field : option string) : option Z :=
  match field with
  | Some s => if String.eqb s "" then None else parseInt s
  | None => None
  end.

(* ------------------------------------------------------------------ *)
(** ** Prompt styles (src/lib/prompt-styles.ts)

    A [PromptStyle] keeps the fields that code reads: [id] (the lookup
    key), [format], [defaultMaxChars] (read by the forms) and
    [negativeFilters] (read by the route). The display texts and prompts
    are not read by any modelled code and are left out. *)
Inductive PromptStyleFormat : Type := Tags | Semantic.

Record PromptStyle : Type := mkPromptStyle {
  ps_id : string;
  ps_format : PromptStyleFormat;
  ps_defaultMaxChars : option Z;
  ps_negativeFilters : option (list string)
}.

Definition promptStyles : list PromptStyle :=
  [ mkPromptStyle "flux-semantic" Semantic (Some 500%Z) (Some commonMetaPhrasesList);
    mkPromptStyle "character-flux" Semantic (Some 750%Z)
      (Some (commonMetaPhrasesList ++ ["appears to be"; "seems to be"; "looks like"; "might be"]));
    mkPromptStyle "sdxl-tags" Tags (Some 450%Z) (Some commonMetaPhrasesList);
    mkPromptStyle "character-sdxl" Semantic (Some 500%Z)
      (Some (commonMetaPhrasesList ++ ["appears to be"; "seems to be"; "looks like"; "might be"]));
    mkPromptStyle "booru-tags" Tags (Some 400%Z) (Some commonMetaPhrasesList);
    mkPromptStyle "seeddream-semantic" Semantic (Some 300%Z) (Some commonMetaPhrasesList);
    mkPromptStyle "nano-banana-tags" Tags (Some 150%Z) (Some commonMetaPhrasesList);
    mkPromptStyle "human-character" Semantic (Some 700%Z)
      (Some (commonMetaPhrasesList ++ ["appears to be"; "seems to be"; "looks like"]));
    mkPromptStyle "custom" Semantic (Some 500%Z) (Some commonMetaPhrasesList) ]%list.

(** [promptStyles.find((style) => style.id === id)] *)
Definition getPromptStyle (id : string) : option PromptStyle :=
  find (fun style => String.eqb (ps_id style) id) promptStyles.

(** [promptStyles[0]] *)
Definition getDefaultPromptStyle : option PromptStyle := nth_error promptStyles 0.

(* ------------------------------------------------------------------ *)
(** ** The [POST] handler *)

(** [(formData.get(k) as string) || d]: [None] is [null]. *)
Definition orDefault (v : option string) (d : string) : string :=
  match v with
  | Some s => if String.eqb s "" then d else s
  | None => d
  end.

(** [promptStyleId ? getPromptStyle(promptStyleId) : undefined], then
    [promptStyle?.negativeFilters || []]. *)
Definition routeNegativeFilters (promptStyleIdField : option string) : list string :=
  let promptStyleId := orDefault promptStyleIdField "" in
  if String.eqb promptStyleId "" then []
  else match getPromptStyle promptStyleId with
       | Some style => match ps_negativeFilters style with Some fs => fs | None => [] end
       | None => []
       end.

(** [(formData.get('ollamaUrl') as string) + '/api' || 'http://localhost:11434/api']:
    a missing field is [null], which concatenates as ["null"]. *)
Definition routeOllamaBase (field : option string) : string :=
  let url := match field with Some s => s | None => "null" end ++ "/api" in
  if String.eqb url "" then "http://localhost:11434/api" else url.

Record RequestForm : Type := mkRequestForm {
  f_images : list ImageFile;
  f_prefix : option string;
  f_suffix : option string;
  f_systemMessage : option string;
  f_userPrompt : option string;
  f_service : option string;
  f_model : option string;
  f_detail : option string;
  f_apiKey : option string;
  f_ollamaUrl : option string;
  f_maxChars : option string;
  f_promptStyleId : option string
}.

Inductive Client : Type :=
| OllamaClient (baseURL : string)
| OpenAIClient (apiKey : string).

(** A response: status 400 with body [{ error }], or the event stream. *)
Inductive Response : Type :=
| BadRequest (error : string)
| EventStream (client : Client) (events : list event).

Definition defaultSystemMessage : string :=
  "Generate a concise, yet detailed comma-separated caption. Do not use markdown. Do not have an intro or outro.".

Definition defaultUserPrompt : string :=
  "Describe this image, focusing on the main elements, style, and composition.".

Section Route.

(** [process.env['OPENAI_API_KEY']] *)
Variable envApiKey : option string.
Variable baseName : string -> string.
(** [generateText] with a client, model, system message, user prompt and
    detail, in iteration [i] for an image. *)
Variable generateText :
  Client -> string -> string -> string -> string -> nat -> ImageFile -> genOutcome.

Definition routeApiKey (form : RequestForm) : option string :=
  match f_apiKey form with
  | Some s => if String.eqb s "" then envApiKey else Some s
  | None => envApiKey
  end.

Definition routeEvents (client : Client) (form : RequestForm) : list event :=
  runBatch removePhrase baseName
    (generateText client (orDefault (f_model form) "")
       (orDefault (f_systemMessage form) defaultSystemMessage)
       (orDefault (f_userPrompt form) defaultUserPrompt)
       (orDefault (f_detail form) "auto"))
    (routeNegativeFilters (f_promptStyleId form))
    (orDefault (f_prefix form) "") (orDefault (f_suffix form) "")
    (routeMaxChars (f_maxChars form)) (f_images form).

Definition POST (form : RequestForm) : Response :=
  if String.eqb (orDefault (f_service form) "openai") "ollama" then
    let client := OllamaClient (routeOllamaBase (f_ollamaUrl form)) in
    EventStream client (routeEvents client form)
  else
    match routeApiKey form with
    | Some k =>
        if String.eqb k "" then BadRequest "OpenAI API key is required"
        else let client := OpenAIClient k in EventStream client (routeEvents client form)
    | None => BadRequest "OpenAI API key is required"
    end.

End Route.

(* ------------------------------------------------------------------ *)
(** ** The OpenAI form's [handleSubmit] (src/components/openai-form.tsx) *)

(** The form values [handleSubmit] reads; an optional field is [None]
    when [undefined]. *)
Record OpenAIFormValues : Type := mkOpenAIFormValues {
  ov_images : list ImageFile;
  ov_prefix : option string;
  ov_suffix : option string;
  ov_systemMessage : option string;
  ov_userPrompt : option string;
  ov_model : option string;
  ov_detail : option string;
  ov_promptStyleId : option string;
  ov_maxChars : option Z
}.

(** [handleSubmit]: [inl msg] is [onError(msg); return], [inr form] the
    [FormData] posted to the route. The form never appends [ollamaUrl]. *)
Definition openAISubmit (apiKey : option string) (data : OpenAIFormValues)
    : string + RequestForm :=
  match ov_images data with
  | [] => inl "At least one image is required."
  | _ =>
      match apiKey with
      | None => inl "OpenAI API key is required"
      | Some k =>
          if String.eqb k "" then inl "OpenAI API key is required"
          else inr (mkRequestForm (ov_images data)
                      (Some (orDefault (ov_prefix data) ""))
                      (Some (orDefault (ov_suffix data) ""))
                      (Some (orDefault (ov_systemMessage data) ""))
                      (Some (orDefault (ov_userPrompt data) ""))
                      (Some "openai")
                      (Some (orDefault (ov_model data) ""))
                      (Some (orDefault (ov_detail data) "auto"))
                      (Some k)
                      None
                      (clientMaxCharsField (ov_maxChars data))
                      (Some (orDefault (ov_promptStyleId data) "")))
      end
  end.

(* ------------------------------------------------------------------ *)
(** ** Caption templates (src/lib/caption-templates.ts), over the catalog *)

Inductive ModelType : Type := MTGeneral | MTZImage | MTFlux | MTSdxl.
Inductive TemplateCategory : Type := CatGeneral | CatPerson | CatStyle.

Definition ModelType_eqb (x y : ModelType) : bool :=
  match x, y with
  | MTGeneral, MTGeneral | MTZImage, MTZImage | MTFlux, MTFlux | MTSdxl, MTSdxl => true
  | _, _ => false
  end.

Record CaptionTemplate : Type := mkCaptionTemplate {
  t_id : string;
  t_name : string;
  t_description : string;
  t_systemMessage : string;
  t_userPrompt : string;
  t_modelType : ModelType;
  t_category : TemplateCategory
}.

(** [Array.from(new Set(xs))]: first occurrences, in insertion order. *)
Definition arrayFromSet (xs : list ModelType) : list ModelType :=
  fold_left (fun acc x => if existsb (ModelType_eqb x) acc then acc else (acc ++ [x])%list)
    xs [].

Definition getAvailableModelTypes (captionTemplates : list CaptionTemplate) : list ModelType :=
  arrayFromSet (map t_modelType captionTemplates).

(** [captionTemplates.filter((t) => t.modelType === modelType || t.modelType === 'general')] *)
Definition getTemplatesByModel (captionTemplates : list CaptionTemplate) (m : ModelType) :=
  filter (fun t => ModelType_eqb (t_modelType t) m || ModelType_eqb (t_modelType t) MTGeneral)
    captionTemplates.

(* ------------------------------------------------------------------ *)
(** ** Observations on strings *)

Definition firstSatisfies (p : ascii -> bool) (s : string) : bool :=
  match s with EmptyString => false | String a _ => p a end.

Fixpoint lastSatisfies (p : ascii -> bool) (s : string) : bool :=
  match s with
  | EmptyString => false
  | String a EmptyString => p a
  | String _ r => lastSatisfies p r
  end.

(** Every whitespace character is a plain space, and no whitespace
    follows it: the shape [s.replace(/\s+/g, ' ')] leaves behind. *)
Fixpoint wsCollapsed (s : string) : bool :=
  match s with
  | EmptyString => true
  | String a r =>
      (if isWs a then Ascii.eqb a " " && negb (firstSatisfies isWs r) else true)
      && wsCollapsed r
  end.

Fixpoint noNewline (s : string) : bool :=
  match s with
  | EmptyString => true
  | String a r => negb (nat_of_ascii a =? 10)%nat && noNewline r
  end.

Fixpoint noDoubleSpace (s : string) : bool :=
  match s with
  | String a ((String b _) as r) =>
      negb (Ascii.eqb a " " && Ascii.eqb b " ") && noDoubleSpace r
  | _ => true
  end.


(** [/[a-z]/] on one character. *)
Definition isAsciiLower (a : ascii) : bool :=
  let n := nat_of_ascii a in (97 <=? n)%nat && (n <=? 122)%nat.

(** The composition the empty-configuration scenario of the spec
    describes: lowercase first, strip one trailing period, collapse
    whitespace and trim, then uppercase first. *)
Definition isPeriod (a : ascii) : bool := Ascii.eqb a ".".

Definition claimedEmptyConfig (raw : string) : string :=
  upperFirst (trim (collapseWs (replaceNewlines (dropLastIf isPeriod (lowerFirst raw))))).

(** Modelled from the claim's words: deletion of every case-insensitive
    occurrence of a literal phrase at word boundaries, i.e. the phrase
    read character by character, none of them as regex syntax. *)
Fixpoint literalToks (phrase : string) : list rtok :=
  match phrase with
  | EmptyString => []
  | String a r => RChar a :: literalToks r
  end.

Definition removeLiteral (phrase s : string) : string :=
  regexRemove (literalToks phrase) s.

Definition noRegexSyntax (phrase : string) : bool :=
  negb (existsb isRegexSyntax (list_ascii_of_string phrase)).

(** [commonMetaPhrases] and the extra phrases of the presets in
    src/lib/prompt-styles.ts. *)
Definition commonMetaPhrases : list string :=
  ["this image shows"; "the image depicts"; "this picture shows";
   "the picture depicts"; "the photo shows"; "this photo shows";
   "we can see"; "you can see"; "there is a"; "there are"; "it appears";
   "it seems"; "looking at"].

Definition extraPresetPhrases : list string :=
  ["appears to be"; "seems to be"; "looks like"; "might be"].

(** Concrete inputs. *)
Definition LF : string := String (ascii_of_nat 10) EmptyString.

Fixpoint replicateChar (n : nat) (a : ascii) : string :=
  match n with
  | O => EmptyString
  | S k => String a (replicateChar k a)
  end.

(** A 60-character caption whose first 50 characters end in a word of 9
    letters after the space at index [k]. *)
Definition spaceAt (k : nat) : string :=
  replicateChar k "a" ++ " " ++ replicateChar (59 - k) "b".

Definition sampleImage (n : string) : ImageFile := mkImage n "image/png" [].

Definition sampleImages : list ImageFile :=
  map sampleImage ["one.png"; "two.png"; "three.png"; "four.png"; "five.png"].

(** Request #3 (index 2) fails, the others succeed. *)
Definition sampleGenerate (i : nat) (image : ImageFile) : genOutcome :=
  if (i =? 2)%nat then Threw (ThrownError "rate limited")
  else Generated ("A photo of " ++ img_name image ++ ".").

(** [path.parse(name).name] for names with one extension. *)
Fixpoint stripExtension (name : string) : string :=
  match name with
  | EmptyString => EmptyString
  | String a r => if Ascii.eqb a "." then EmptyString else String a (stripExtension r)
  end.

(* ------------------------------------------------------------------ *)
(** ** Lemmas on the string primitives *)

Lemma append_empty_r : forall s, s ++ "" = s.
Proof. induction s as [|a s IH]; simpl; [reflexivity | now rewrite IH]. Qed.

Lemma append_assoc_str : forall x y z, (x ++ y) ++ z = x ++ (y ++ z).
Proof. induction x as [|a x IH]; intros; simpl; [reflexivity | now rewrite IH]. Qed.

Lemma length_append_str : forall x y, String.length (x ++ y) = String.length x + String.length y.
Proof. induction x as [|a x IH]; intros; simpl; [reflexivity | now rewrite IH]. Qed.

Lemma dropLeading_first : forall p s, firstSatisfies p (dropLeading p s) = false.
Proof.
  intros p s; induction s as [|a r IH]; simpl; [reflexivity|].
  destruct (p a) eqn:E; [exact IH | simpl; exact E].
Qed.

Lemma dropTrailing_last : forall p s, lastSatisfies p (dropTrailing p s) = false.
Proof.
  intros p s; induction s as [|a r IH]; simpl; [reflexivity|].
  destruct (dropTrailing p r) as [|b t] eqn:E.
  - destruct (p a) eqn:Pa; simpl; [reflexivity | exact Pa].
  - exact IH.
Qed.

Lemma dropTrailing_first : forall p s,
  firstSatisfies p s = false -> firstSatisfies p (dropTrailing p s) = false.
Proof.
  intros p [|a r] H; simpl in *; [reflexivity|].
  destruct (dropTrailing p r); [rewrite H|]; simpl; exact H.
Qed.

Lemma trim_edges : forall s,
  firstSatisfies isWs (trim s) = false /\ lastSatisfies isWs (trim s) = false.
Proof.
  intro s; unfold trim; split.
  - apply dropTrailing_first, dropLeading_first.
  - apply dropTrailing_last.
Qed.

Lemma dropLeading_suffix : forall p s, exists pre, s = pre ++ dropLeading p s.
Proof.
  intros p s; induction s as [|a r [pre IH]]; simpl.
  - exists ""; reflexivity.
  - destruct (p a).
    + exists (String a pre); simpl; now rewrite <- IH.
    + exists ""; reflexivity.
Qed.

Lemma dropTrailing_prefix : forall p s, exists suf, s = dropTrailing p s ++ suf.
Proof.
  intros p s; induction s as [|a r [suf IH]]; simpl.
  - exists ""; reflexivity.
  - destruct (dropTrailing p r) as [|b t] eqn:E.
    + destruct (p a).
      * exists (String a r); reflexivity.
      * exists suf; simpl; now rewrite IH at 1.
    + exists suf; simpl; now rewrite IH at 1.
Qed.

Lemma substring0_prefix : forall n s, exists suf, s = substring 0 n s ++ suf.
Proof.
  induction n as [|n IH]; intros [|a r]; simpl.
  - exists ""; reflexivity.
  - exists (String a r); reflexivity.
  - exists ""; reflexivity.
  - destruct (IH r) as [suf H]; exists suf; simpl; now rewrite <- H.
Qed.

Lemma substring0_length : forall n s, String.length (substring 0 n s) <= n.
Proof.
  induction n as [|n IH]; intros [|a r]; simpl; try lia.
  specialize (IH r); lia.
Qed.

Lemma trim_prefix_suffix : forall s, exists pre suf, s = pre ++ trim s ++ suf.
Proof.
  intro s; unfold trim.
  destruct (dropLeading_suffix isWs s) as [pre Hpre].
  destruct (dropTrailing_prefix isWs (dropLeading isWs s)) as [suf Hsuf].
  exists pre, suf; rewrite <- Hsuf; exact Hpre.
Qed.

Lemma trim_length : forall s, String.length (trim s) <= String.length s.
Proof.
  intro s; destruct (trim_prefix_suffix s) as [pre [suf H]].
  rewrite H at 2; rewrite !length_append_str; lia.
Qed.

Lemma formatCaption_shape : forall c p s m,
  exists y, formatCaption c p s m = applyLimit m (trim (collapseWs (replaceNewlines y))).
Proof. intros; eexists; reflexivity. Qed.

Lemma applyLimit_trim : forall m f, exists y, applyLimit m (trim f) = trim y.
Proof.
  intros [m|] f; unfold applyLimit; cbv beta iota zeta; [|exists f; reflexivity].
  destruct (negb (m =? 0)%Z && (m <? Z.of_nat (String.length (trim f)))%Z);
    [|exists f; reflexivity].
  destruct (4 * m <? 5 * lastIndexOfSpace (trim (substring0 m (trim f))))%Z;
    eexists; reflexivity.
Qed.

Lemma wsCollapsed_collapseWsFrom : forall s b,
  wsCollapsed (collapseWsFrom b s) = true /\
  (b = true -> firstSatisfies isWs (collapseWsFrom b s) = false).
Proof.
  induction s as [|a r IH]; intro b; simpl; [split; reflexivity|].
  destruct (isWs a) eqn:Ea.
  - destruct b.
    + apply IH.
    + destruct (IH true) as [H1 H2]. split; [|discriminate].
      simpl. rewrite H2 by reflexivity. simpl. exact H1.
  - destruct (IH false) as [H1 _]. split.
    + simpl. rewrite Ea. exact H1.
    + intros _. simpl. exact Ea.
Qed.

Lemma wsCollapsed_app_r : forall x y, wsCollapsed (x ++ y) = true -> wsCollapsed y = true.
Proof.
  induction x as [|a r IH]; intros y H; simpl in *; [exact H|].
  apply andb_prop in H as [_ H]; exact (IH y H).
Qed.

Lemma wsCollapsed_app_l : forall x y, wsCollapsed (x ++ y) = true -> wsCollapsed x = true.
Proof.
  induction x as [|a r IH]; intros y H; simpl in *; [reflexivity|].
  apply andb_prop in H as [H1 H2]; rewrite (IH y H2), andb_true_r.
  destruct (isWs a); [|reflexivity].
  apply andb_prop in H1 as [Ha Hr]; rewrite Ha; simpl.
  destruct r as [|b r']; [reflexivity|exact Hr].
Qed.

Lemma wsCollapsed_trim : forall s, wsCollapsed s = true -> wsCollapsed (trim s) = true.
Proof.
  intros s H; destruct (trim_prefix_suffix s) as [pre [suf E]].
  rewrite E in H; apply wsCollapsed_app_r in H; eapply wsCollapsed_app_l; exact H.
Qed.

Lemma wsCollapsed_substring0 : forall k s,
  wsCollapsed s = true -> wsCollapsed (substring0 k s) = true.
Proof.
  intros k s H; unfold substring0.
  destruct (substring0_prefix (Z.to_nat k) s) as [suf E].
  rewrite E in H; eapply wsCollapsed_app_l; exact H.
Qed.

Lemma wsCollapsed_applyLimit : forall m f,
  wsCollapsed f = true -> wsCollapsed (applyLimit m f) = true.
Proof.
  intros [m|] f H; unfold applyLimit; cbv beta iota zeta; [|exact H].
  destruct (negb (m =? 0)%Z && (m <? Z.of_nat (String.length f)))%Z; [|exact H].
  assert (Hc : wsCollapsed (trim (substring0 m f)) = true)
    by (apply wsCollapsed_trim, wsCollapsed_substring0, H).
  destruct (4 * m <? 5 * lastIndexOfSpace (trim (substring0 m f)))%Z; [|exact Hc].
  apply wsCollapsed_trim, wsCollapsed_substring0, Hc.
Qed.

Lemma isWs_newline : forall a, (nat_of_ascii a =? 10)%nat = true -> isWs a = true.
Proof. intros a H; apply Nat.eqb_eq in H; unfold isWs; rewrite H; reflexivity. Qed.

Lemma wsCollapsed_noNewline : forall s, wsCollapsed s = true -> noNewline s = true.
Proof.
  induction s as [|a r IH]; intro H; simpl in *; [reflexivity|].
  apply andb_prop in H as [H1 H2]; rewrite (IH H2), andb_true_r.
  destruct (nat_of_ascii a =? 10)%nat eqn:E; [|reflexivity].
  rewrite (isWs_newline a E) in H1.
  apply andb_prop in H1 as [Ha _]; apply Ascii.eqb_eq in Ha; subst a; discriminate E.
Qed.

Lemma wsCollapsed_noDoubleSpace : forall s, wsCollapsed s = true -> noDoubleSpace s = true.
Proof.
  induction s as [|a r IH]; intro H; [reflexivity|].
  simpl in H; apply andb_prop in H as [H1 H2].
  specialize (IH H2).
  destruct r as [|b r']; [reflexivity|].
  change (negb (Ascii.eqb a " " && Ascii.eqb b " ") && noDoubleSpace (String b r') = true).
  rewrite IH, andb_true_r.
  destruct (Ascii.eqb a " ") eqn:Ea; [|reflexivity].
  apply Ascii.eqb_eq in Ea; subst a; simpl in H1.
  destruct (Ascii.eqb b " ") eqn:Eb; [|reflexivity].
  apply Ascii.eqb_eq in Eb; subst b; discriminate H1.
Qed.

Lemma applyLimit_length : forall m f,
  (0 < m)%Z -> (Z.of_nat (String.length (applyLimit (Some m) f)) <= m)%Z.
Proof.
  intros m f Hm; unfold applyLimit; cbv beta iota zeta.
  destruct (negb (m =? 0)%Z && (m <? Z.of_nat (String.length f)))%Z eqn:E.
  - assert (Hc : (Z.of_nat (String.length (trim (substring0 m f))) <= m)%Z).
    { pose proof (trim_length (substring0 m f)).
      pose proof (substring0_length (Z.to_nat m) f). unfold substring0 in *. lia. }
    destruct (4 * m <? 5 * lastIndexOfSpace (trim (substring0 m f)))%Z; [|exact Hc].
    pose proof (trim_length (substring0 (lastIndexOfSpace (trim (substring0 m f)))
                                        (trim (substring0 m f)))).
    destruct (substring0_prefix (Z.to_nat (lastIndexOfSpace (trim (substring0 m f))))
                                (trim (substring0 m f))) as [suf Hs].
    unfold substring0 at 1 in H.
    assert (Hl := f_equal String.length Hs); rewrite length_append_str in Hl.
    unfold substring0 in *; lia.
  - apply andb_false_iff in E as [E|E].
    + apply negb_false_iff, Z.eqb_eq in E; lia.
    + apply Z.ltb_ge in E; exact E.
Qed.

Lemma isWs_toLowerChar : forall c, isWs (toLowerChar c) = isWs c.
Proof. intros [[] [] [] [] [] [] [] []]; reflexivity. Qed.

Lemma isWs_not_newline : forall c,
  isWs c = false -> (nat_of_ascii c =? 10)%nat = false.
Proof.
  intros c H; destruct (nat_of_ascii c =? 10)%nat eqn:E; [|reflexivity].
  rewrite (isWs_newline c E) in H; discriminate.
Qed.

Lemma trim_head : forall c r,
  isWs c = false -> exists r', trim (String c r) = String c r'.
Proof.
  intros c r H; unfold trim; simpl; rewrite H; simpl.
  destruct (dropTrailing isWs r); [rewrite H|]; eexists; reflexivity.
Qed.

Lemma trim_substring0_head : forall c r k,
  isWs c = false ->
  trim (substring0 k (String c r)) = "" \/
  exists r', trim (substring0 k (String c r)) = String c r'.
Proof.
  intros c r k H; unfold substring0.
  destruct (Z.to_nat k) as [|n]; [left; reflexivity|].
  right; simpl; apply trim_head, H.
Qed.

Lemma applyLimit_head : forall m c r,
  isWs c = false ->
  applyLimit m (String c r) = "" \/ exists r', applyLimit m (String c r) = String c r'.
Proof.
  intros [m|] c r H; unfold applyLimit; cbv beta iota zeta; [|right; eexists; reflexivity].
  destruct (negb (m =? 0)%Z && (m <? Z.of_nat (String.length (String c r))))%Z;
    [|right; eexists; reflexivity].
  destruct (trim_substring0_head c r m H) as [E|[r' E]]; rewrite E.
  - left; destruct (4 * m <? 5 * lastIndexOfSpace "")%Z; reflexivity.
  - destruct (4 * m <? 5 * lastIndexOfSpace (String c r'))%Z; [|right; eexists; reflexivity].
    apply trim_substring0_head, H.
Qed.

Lemma normalize_head : forall c r,
  isWs c = false ->
  exists r', trim (collapseWs (replaceNewlines (String c r))) = String c r'.
Proof.
  intros c r H; simpl; rewrite (isWs_not_newline c H).
  unfold collapseWs; simpl; rewrite H; apply trim_head, H.
Qed.

Lemma trim_first : forall s c r, trim s = String c r -> isWs c = false.
Proof.
  intros s c r E; destruct (trim_edges s) as [H _]; rewrite E in H; exact H.
Qed.

Lemma dropLastIf_first : forall p s c r,
  dropLastIf p s = String c r -> exists r', s = String c r'.
Proof.
  intros p [|a t] c r E; [discriminate|].
  destruct t as [|b t]; simpl in E.
  - destruct (p a); [discriminate|]. injection E as -> _; eexists; reflexivity.
  - injection E as -> _; eexists; reflexivity.
Qed.

Lemma formatCaption_prefix_head : forall caption prefix suffix m c r d o,
  dropLastIf isComma (trim prefix) = String c r ->
  formatCaption caption prefix suffix m = String d o -> d = c.
Proof.
  intros caption prefix suffix m c r d o Hp Hout.
  assert (Hc : isWs c = false).
  { destruct (dropLastIf_first _ _ _ _ Hp) as [r' E]; exact (trim_first _ _ _ E). }
  unfold formatCaption in Hout; cbv zeta in Hout; rewrite Hp in Hout.
  cbn [String.eqb append] in Hout.
  match type of Hout with
  | context [trim (collapseWs (replaceNewlines (String c ?x)))] =>
      destruct (normalize_head c x Hc) as [y Hx]; rewrite Hx in Hout
  end.
  destruct (applyLimit_head m c y Hc) as [E|[z E]]; rewrite E in Hout;
    [discriminate | injection Hout as -> _; reflexivity].
Qed.

Lemma formatCaption_noprefix_head : forall c r prefix suffix m d o,
  dropLastIf isComma (trim prefix) = "" -> isWs c = false -> r <> "" ->
  formatCaption (String c r) prefix suffix m = String d o -> d = toLowerChar c.
Proof.
  intros c r prefix suffix m d o Hp Hc Hr Hout.
  assert (Hl : isWs (toLowerChar c) = false) by (rewrite isWs_toLowerChar; exact Hc).
  destruct r as [|b t]; [contradiction|].
  unfold formatCaption in Hout; cbv zeta in Hout; rewrite Hp in Hout.
  cbn [String.eqb append lowerFirst dropLastIf] in Hout.
  match type of Hout with
  | context [trim (collapseWs (replaceNewlines (String (toLowerChar c) ?x)))] =>
      destruct (normalize_head (toLowerChar c) x Hl) as [y Hx]; rewrite Hx in Hout
  end.
  destruct (applyLimit_head m (toLowerChar c) y Hl) as [E|[z E]]; rewrite E in Hout;
    [discriminate | injection Hout as -> _; reflexivity].
Qed.

Lemma compilePhrase_literal : forall phrase,
  noRegexSyntax phrase = true -> compilePhrase phrase = Some (literalToks phrase).
Proof.
  induction phrase as [|a r IH]; intro H; [reflexivity|].
  unfold noRegexSyntax in H; simpl in H.
  apply negb_true_iff, orb_false_iff in H as [Ha Hr].
  simpl; rewrite IH by (unfold noRegexSyntax; rewrite Hr; reflexivity).
  rewrite Ha.
  destruct (Ascii.eqb a ".") eqn:Ed; [|reflexivity].
  apply Ascii.eqb_eq in Ed; subst a; discriminate Ha.
Qed.

Section BatchFacts.

Variable replacePhrase : string -> string -> string.
Variable baseName : string -> string.
Variable generate : nat -> ImageFile -> genOutcome.
Variable negativeFilters : list string.
Variables prefix suffix : string.
Variable maxChars : option Z.

Let run := runFrom replacePhrase baseName generate negativeFilters prefix suffix maxChars.
Let item := itemEvent replacePhrase baseName generate negativeFilters prefix suffix maxChars.

Lemma runFrom_queue : forall images i queue, run i images queue = (queue ++ run i images [])%list.
Proof.
  induction images as [|image rest IH]; intros i queue; simpl.
  - now rewrite app_nil_r.
  - unfold run in *; rewrite IH, (IH (S i) [_]), app_assoc; reflexivity.
Qed.

Lemma runFrom_nth : forall images i k,
  nth_error (run i images []) k = option_map (item (i + k)) (nth_error images k).
Proof.
  induction images as [|image rest IH]; intros i k; simpl.
  - destruct k; reflexivity.
  - unfold run in *; rewrite runFrom_queue; fold run.
    destruct k as [|k]; simpl.
    + now rewrite Nat.add_0_r.
    + rewrite IH; now replace (S i + k)%nat with (i + S k)%nat by lia.
Qed.

Lemma runFrom_length : forall images i, length (run i images []) = length images.
Proof.
  induction images as [|image rest IH]; intro i; simpl; [reflexivity|].
  unfold run in *; rewrite runFrom_queue; simpl; now rewrite IH.
Qed.

End BatchFacts.

Lemma replaceNewlines_app : forall x y,
  replaceNewlines (x ++ y) = replaceNewlines x ++ replaceNewlines y.
Proof. induction x as [|a x IH]; intro y; simpl; [reflexivity | now rewrite IH]. Qed.

Lemma replaceNewlines_id : forall x, noNewline x = true -> replaceNewlines x = x.
Proof.
  induction x as [|a x IH]; intro H; simpl in *; [reflexivity|].
  apply andb_true_iff in H as [Ha Hx]; apply negb_true_iff in Ha.
  rewrite Ha, IH by exact Hx; reflexivity.
Qed.

Lemma dropTrailing_app : forall p x y,
  dropTrailing p y <> "" -> dropTrailing p (x ++ y) = x ++ dropTrailing p y.
Proof.
  intros p x y Hy; induction x as [|a x IH]; [reflexivity|].
  simpl; rewrite IH.
  destruct (x ++ dropTrailing p y) eqn:E; [|reflexivity].
  destruct x; simpl in E; [contradiction | discriminate E].
Qed.

Lemma dropTrailing_head : forall p a z,
  p a = false -> exists z', dropTrailing p (String a z) = String a z'.
Proof.
  intros p a z H; simpl; destruct (dropTrailing p z); [rewrite H|]; eexists; reflexivity.
Qed.

Lemma readEvents_first_error : forall acc pre ev post,
  (forall e, In e pre -> String.prefix "Error:" (caption e) = false) ->
  String.prefix "Error:" (caption ev) = true ->
  readEvents acc (pre ++ ev :: post) =
    Failed (substring 7 (String.length (caption ev) - 7) (caption ev)) (acc ++ pre).
Proof.
  intros acc pre; revert acc; induction pre as [|e pre IH]; intros acc ev post Hpre Hev; simpl.
  - now rewrite Hev, app_nil_r.
  - rewrite (Hpre e (or_introl eq_refl)), IH.
    + now rewrite <- app_assoc.
    + intros e' He'; apply Hpre; right; exact He'.
    + exact Hev.
Qed.












(* ------------------------------------------------------------------ *)
(** ** Claims *)

(** C1: on the raw caption "This image shows a cat sitting on a mat."
    with negativeFilters ["this image shows"], prefix "TOK", suffix
    "high quality" and no maxChars, the pipeline returns
    "TOK, a cat sitting on a mat, high quality". *)
Theorem C1_scenario :
  process ["this image shows"] "TOK" "high quality" None
    "This image shows a cat sitting on a mat."
  = "TOK, a cat sitting on a mat, high quality".
Proof. vm_compute. reflexivity. Qed.

(** C2: the stream loop emits exactly one event per image, in order; the
    event of image [k] is named [baseName(name) + ".txt"] and carries the
    processed caption when generation succeeds, or ["Error: " + message]
    when it throws, and later images are still processed. *)
Theorem C2_batch_one_event_per_request :
  forall replacePhrase baseName generate negativeFilters prefix suffix maxChars images,
  let events := runBatch replacePhrase baseName generate negativeFilters prefix suffix
                  maxChars images in
  length events = length images /\
  forall k image, nth_error images k = Some image ->
    nth_error events k =
      Some (mkEvent (baseName (img_name image) ++ ".txt")
              (match generate k image with
               | Generated text =>
                   processCaption replacePhrase negativeFilters prefix suffix maxChars text
               | Threw e => "Error: " ++ errorMessage e
               end)).
Proof.
  intros rp bn gen nf p s m images events; split.
  - apply runFrom_length.
  - intros k image Hk; unfold events, runBatch.
    rewrite runFrom_nth, Hk; simpl; unfold itemEvent.
    destruct (gen k image); reflexivity.
Qed.

Lemma C2_witness :
  nth_error sampleImages 2 = Some (sampleImage "three.png") /\
  length (runBatch removePhrase stripExtension sampleGenerate [] "" "" None sampleImages) = 5%nat /\
  nth_error (runBatch removePhrase stripExtension sampleGenerate [] "" "" None sampleImages) 2
  = Some (mkEvent "three.txt" "Error: rate limited").
Proof.
  split; [reflexivity|].
  destruct (C2_batch_one_event_per_request removePhrase stripExtension sampleGenerate
              [] "" "" None sampleImages) as [Hlen Hnth].
  split; [exact Hlen|].
  rewrite (Hnth 2%nat (sampleImage "three.png") eq_refl); reflexivity.
Defined.

(** C3 (defect): the word-boundary cut is taken only when the last space
    of the hard cut lies strictly above 80% of maxChars. With maxChars 50
    and the last space at index 42 the result is cut at 42, but with the
    last space at index 40 (exactly 80%, losing exactly 20% of the
    budget) the 50-character hard cut is kept. *)
Theorem C3_boundary_at_80_percent_not_cut :
  lastIndexOfSpace (substring0 50 (spaceAt 40)) = 40%Z /\
  process [] "" "" (Some 50%Z) (spaceAt 40) = substring0 50 (spaceAt 40) /\
  String.length (process [] "" "" (Some 50%Z) (spaceAt 40)) = 50%nat /\
  lastIndexOfSpace (substring0 50 (spaceAt 42)) = 42%Z /\
  process [] "" "" (Some 50%Z) (spaceAt 42) = replicateChar 42 "a".
Proof. vm_compute. repeat split. Qed.

(** C4 (counterexample): with empty filters, prefix and suffix the
    pipeline does not uppercase the first character, and the scenario
    "This is a Cat.\n\n" does not give "This is a cat". *)
Lemma C4_counterexample :
  process [] "" "" None "a cat" = "a cat" /\
  claimedEmptyConfig "a cat" = "A cat" /\
  process [] "" "" None ("This is a Cat." ++ LF ++ LF) = "this is a Cat." /\
  process [] "" "" None ("This is a Cat." ++ LF ++ LF) <> "This is a cat".
Proof. vm_compute. repeat split; discriminate. Qed.

(** C4 (amended): with empty negativeFilters, prefix and suffix and no
    maxChars the pipeline lowercases the first character, removes a
    period that is the very last character, turns newlines and whitespace
    runs into single spaces and trims, with no final uppercasing; so
    "This is a Cat.\n\n" gives "this is a Cat.". *)
Theorem C4_empty_config_composition :
  (forall replacePhrase raw,
     processCaption replacePhrase [] "" "" None raw =
     trim (collapseWs (replaceNewlines (dropLastIf isPeriod (lowerFirst raw))))) /\
  process [] "" "" None ("This is a Cat." ++ LF ++ LF) = "this is a Cat.".
Proof.
  split; [|vm_compute; reflexivity].
  intros rp raw; unfold processCaption, formatCaption; cbv zeta.
  change (dropLastIf isComma (trim "")) with "".
  change (dropFirstIf isComma (trim "")) with "".
  cbn [String.eqb append applyLimit].
  rewrite append_empty_r; reflexivity.
Qed.

(** C5 (counterexample): a non-empty output can start with a lowercase
    letter, with or without negative filters. *)
Lemma C5_counterexample :
  process [] "" "" None "a cat" = "a cat" /\
  process ["this image shows"] "" "" None "This image shows a cat" = "a cat".
Proof. vm_compute. split; reflexivity. Qed.

(** C5 (amended): there is no final capitalization. When the trimmed
    prefix (one trailing comma removed) is non-empty, a non-empty output
    starts with the prefix's first character as it is; without a prefix,
    a non-empty output starts with the lowercased first character of the
    caption handed to [formatCaption] (when that character is not
    whitespace and is not the whole caption). *)
Theorem C5_first_character :
  (forall replacePhrase negativeFilters prefix suffix maxChars text c r d o,
     dropLastIf isComma (trim prefix) = String c r ->
     processCaption replacePhrase negativeFilters prefix suffix maxChars text = String d o ->
     d = c) /\
  (forall c r prefix suffix maxChars d o,
     dropLastIf isComma (trim prefix) = "" -> isWs c = false -> r <> "" ->
     formatCaption (String c r) prefix suffix maxChars = String d o ->
     d = toLowerChar c).
Proof.
  split.
  - intros rp nf prefix suffix m text c r d o Hp Hout.
    exact (formatCaption_prefix_head _ prefix suffix m c r d o Hp Hout).
  - exact formatCaption_noprefix_head.
Qed.

Lemma C5_witness :
  dropLastIf isComma (trim " tok, ") = "tok" /\
  process [] " tok, " "" None "A cat" = "tok, a cat" /\
  ("t" = "t")%char /\
  formatCaption "A cat" "" "" None = "a cat" /\
  ("a" = toLowerChar "A")%char.
Proof.
  destruct C5_first_character as [HA HB].
  split; [reflexivity|]. split; [vm_compute; reflexivity|].
  split; [exact (HA removePhrase [] " tok, " "" None "A cat" "t"%char "ok" "t"%char "ok, a cat"
                   eq_refl eq_refl)|].
  split; [vm_compute; reflexivity|].
  exact (HB "A"%char " cat" "" "" None "a"%char " cat" eq_refl eq_refl
            ltac:(discriminate) eq_refl).
Defined.

(** C6 (defect): the output never starts or ends with whitespace, and
    with a non-empty body the ", " separators are only added for a
    non-empty prefix or suffix ("a cat" with suffix "high quality" gives
    "a cat, high quality"); but [formatCaption] adds the separator of a
    configured prefix or suffix even when negative filtering has emptied
    the body, so the output can start or end with a comma: "TOK," and
    ", high quality". *)
Theorem C6_empty_body_leaves_separator :
  (forall replacePhrase negativeFilters prefix suffix maxChars text,
     let out := processCaption replacePhrase negativeFilters prefix suffix maxChars text in
     firstSatisfies isWs out = false /\ lastSatisfies isWs out = false) /\
  process [] "" "high quality" None "a cat" = "a cat, high quality" /\
  process ["this image shows"] "TOK" "" None "This image shows" = "TOK," /\
  process ["this image shows"] "" "high quality" None "This image shows" = ", high quality".
Proof.
  split; [|vm_compute; repeat split].
  intros rp nf prefix suffix m text out; unfold out, processCaption.
  destruct (formatCaption_shape (match nf with [] => text | _ => applyNegativeFilters rp text nf end)
              prefix suffix m) as [y E]; rewrite E.
  destruct (applyLimit_trim m (collapseWs (replaceNewlines y))) as [z E']; rewrite E'.
  apply trim_edges.
Qed.

(** C7 (defect): each phrase is compiled unescaped into [\b<phrase>\b]
    with flags [gi]. For a phrase without regex syntax characters, which
    holds for every phrase of the preset catalog, this is the deletion of
    the case-insensitive whole-word occurrences of the literal phrase
    ("there is a" on "there is a cat, thereafter" leaves
    "cat, thereafter"); but a phrase with such characters is matched as a
    pattern: "a.c" removes "abc", which is no occurrence of the literal. *)
Theorem C7_phrase_compiled_as_pattern :
  (forall phrase s, noRegexSyntax phrase = true ->
     removePhrase phrase s = removeLiteral phrase s) /\
  forallb noRegexSyntax (commonMetaPhrases ++ extraPresetPhrases) = true /\
  removeFilters removePhrase ["there is a"] "there is a cat, thereafter" = "cat, thereafter" /\
  removePhrase "a.c" "abc x" = " x" /\
  removeLiteral "a.c" "abc x" = "abc x" /\
  removeFilters removePhrase ["a.c"] "abc x" = "x".
Proof.
  split; [|vm_compute; repeat split].
  intros phrase s H; unfold removePhrase, removeLiteral.
  rewrite compilePhrase_literal by exact H; reflexivity.
Qed.

Lemma C7_witness :
  noRegexSyntax "there is a" = true /\
  removePhrase "there is a" "There is a dog" = removeLiteral "there is a" "There is a dog" /\
  removeLiteral "there is a" "There is a dog" = " dog".
Proof.
  split; [reflexivity|]. split.
  - apply (proj1 C7_phrase_compiled_as_pattern); reflexivity.
  - vm_compute; reflexivity.
Defined.




(** C9: the output contains no newline and no two consecutive spaces, and
    when maxChars is set (to a positive integer) its length is at most
    maxChars. *)
Theorem C9_output_shape :
  forall replacePhrase negativeFilters prefix suffix maxChars text,
  let out := processCaption replacePhrase negativeFilters prefix suffix maxChars text in
  noNewline out = true /\ noDoubleSpace out = true /\
  (forall m, maxChars = Some m -> (0 < m)%Z -> (Z.of_nat (String.length out) <= m)%Z).
Proof.
  intros rp nf prefix suffix maxChars text out; unfold out, processCaption.
  destruct (formatCaption_shape (match nf with [] => text | _ => applyNegativeFilters rp text nf end)
              prefix suffix maxChars) as [y E]; rewrite E.
  assert (H : wsCollapsed (applyLimit maxChars (trim (collapseWs (replaceNewlines y)))) = true).
  { apply wsCollapsed_applyLimit, wsCollapsed_trim.
    apply (wsCollapsed_collapseWsFrom (replaceNewlines y) false). }
  split; [apply wsCollapsed_noNewline, H|].
  split; [apply wsCollapsed_noDoubleSpace, H|].
  intros m -> Hm; apply applyLimit_length, Hm.
Qed.

Lemma C9_witness :
  (Z.of_nat (String.length (process [] "" "" (Some 10%Z) ("a  long" ++ LF ++ "caption"))) <= 10)%Z.
Proof.
  destruct (C9_output_shape removePhrase [] "" "" (Some 10%Z) ("a  long" ++ LF ++ "caption"))
    as [_ [_ H]].
  apply H; [reflexivity | lia].
Defined.

(** C10: a failure is sent in the [caption] field as "Error: " followed by
    the thrown message, whatever the filters, prefix, suffix and maxChars;
    a successful caption can be the very same event; and the client
    classifies every event whose caption starts with "Error:" as a
    failure: at the first one it reports the rest of the caption and stops
    reading, with only the captions before it shown. *)
Theorem C10_error_marker_shares_caption_channel :
  (forall replacePhrase baseName negativeFilters prefix suffix maxChars i image message,
     caption (itemEvent replacePhrase baseName (fun _ _ => Threw (ThrownError message))
                negativeFilters prefix suffix maxChars i image)
     = "Error: " ++ message) /\
  (forall baseName i image,
     itemEvent removePhrase baseName (fun _ _ => Generated " Error: timeout") [] "" "" None i image
     = itemEvent removePhrase baseName (fun _ _ => Threw (ThrownError "timeout"))
         [] "" "" None i image) /\
  (forall acc pre ev post,
     (forall e, In e pre -> String.prefix "Error:" (caption e) = false) ->
     String.prefix "Error:" (caption ev) = true ->
     readEvents acc (pre ++ ev :: post) =
       Failed (substring 7 (String.length (caption ev) - 7) (caption ev)) (acc ++ pre)).
Proof.
  split; [reflexivity|]. split; [|exact readEvents_first_error].
  intros bn i image; unfold itemEvent; f_equal.
Qed.

Lemma C10_witness :
  (forall e, In e [mkEvent "cat.txt" "a cat"] -> String.prefix "Error:" (caption e) = false) /\
  String.prefix "Error:" (caption (mkEvent "dog.txt" "Error: timeout")) = true /\
  readEvents [] ([mkEvent "cat.txt" "a cat"] ++ mkEvent "dog.txt" "Error: timeout"
                  :: [mkEvent "cow.txt" "a cow"]) =
    Failed "timeout" [mkEvent "cat.txt" "a cat"].
Proof.
  assert (Hpre : forall e, In e [mkEvent "cat.txt" "a cat"] ->
                   String.prefix "Error:" (caption e) = false)
    by (intros e [<-|[]]; reflexivity).
  split; [exact Hpre | split; [reflexivity|]].
  exact (proj2 (proj2 C10_error_marker_shares_caption_channel) [] [mkEvent "cat.txt" "a cat"]
           (mkEvent "dog.txt" "Error: timeout") [mkEvent "cow.txt" "a cow"] Hpre eq_refl).
Defined.

(* ------------------------------------------------------------------ *)
(** ** Further properties of the code *)

Lemma substring0_empty : forall k, substring0 k "" = "".
Proof. intro k; unfold substring0; destruct (Z.to_nat k); reflexivity. Qed.

Lemma applyLimit_neg : forall m f, (m < 0)%Z -> applyLimit (Some m) f = "".
Proof.
  intros m f Hm; unfold applyLimit; cbv beta iota zeta.
  replace (negb (m =? 0)%Z && (m <? Z.of_nat (String.length f)))%Z with true
    by (symmetry; apply andb_true_iff; split;
        [apply negb_true_iff, Z.eqb_neq; lia | apply Z.ltb_lt; lia]).
  replace (substring0 m f) with "" by (unfold substring0; replace (Z.to_nat m) with 0%nat by lia;
    destruct f; reflexivity).
  change (trim "") with "".
  destruct (4 * m <? 5 * lastIndexOfSpace "")%Z; [rewrite substring0_empty|]; reflexivity.
Qed.

Lemma applyLimit_fits : forall m f,
  (Z.of_nat (String.length f) <= m)%Z -> applyLimit (Some m) f = f.
Proof.
  intros m f H; unfold applyLimit; cbv beta iota zeta.
  replace (m <? Z.of_nat (String.length f))%Z with false by (symmetry; apply Z.ltb_ge; lia).
  rewrite andb_false_r; reflexivity.
Qed.

Lemma firstSatisfies_substring0 : forall p n s,
  firstSatisfies p s = false -> firstSatisfies p (substring 0 n s) = false.
Proof. intros p [|n] [|a r] H; simpl in *; auto. Qed.

Lemma trim_prefix_nows : forall s,
  firstSatisfies isWs s = false -> exists suf, s = trim s ++ suf.
Proof.
  intros [|a r] H; [exists ""; reflexivity|].
  simpl in H; unfold trim.
  replace (dropLeading isWs (String a r)) with (String a r) by (simpl; rewrite H; reflexivity).
  apply dropTrailing_prefix.
Qed.

Lemma trim_substring0_prefix : forall n s,
  firstSatisfies isWs s = false -> exists suf, s = trim (substring 0 n s) ++ suf.
Proof.
  intros n s H.
  destruct (substring0_prefix n s) as [s1 E1].
  destruct (trim_prefix_nows (substring 0 n s) (firstSatisfies_substring0 _ n s H)) as [s2 E2].
  exists (s2 ++ s1); rewrite <- append_assoc_str, <- E2; exact E1.
Qed.

Lemma applyLimit_prefix : forall m f,
  firstSatisfies isWs f = false -> exists suf, f = applyLimit m f ++ suf.
Proof.
  intros [m|] f H; [|exists ""; symmetry; apply append_empty_r].
  unfold applyLimit; cbv beta iota zeta.
  destruct (negb (m =? 0)%Z && (m <? Z.of_nat (String.length f)))%Z;
    [|exists ""; symmetry; apply append_empty_r].
  destruct (trim_substring0_prefix (Z.to_nat m) f H) as [s1 E1].
  unfold substring0.
  destruct (4 * m <? 5 * lastIndexOfSpace (trim (substring 0 (Z.to_nat m) f)))%Z;
    [|exists s1; exact E1].
  destruct (trim_substring0_prefix (Z.to_nat (lastIndexOfSpace (trim (substring 0 (Z.to_nat m) f))))
              (trim (substring 0 (Z.to_nat m) f)) (proj1 (trim_edges _))) as [s2 E2].
  exists (s2 ++ s1); rewrite <- append_assoc_str, <- E2; exact E1.
Qed.

Lemma formatCaption_limit : forall c p s m,
  formatCaption c p s m = applyLimit m (formatCaption c p s None).
Proof. reflexivity. Qed.

Lemma formatCaption_first : forall c p s m,
  firstSatisfies isWs (formatCaption c p s m) = false.
Proof.
  intros c p s m; destruct (formatCaption_shape c p s m) as [y ->].
  destruct (applyLimit_trim m (collapseWs (replaceNewlines y))) as [z ->].
  exact (proj1 (trim_edges z)).
Qed.

Lemma isCommaOrWs_toUpperChar : forall a, isCommaOrWs (toUpperChar a) = isCommaOrWs a.
Proof. intros [[] [] [] [] [] [] [] []]; reflexivity. Qed.

Lemma isAsciiLower_toUpperChar : forall a, isAsciiLower (toUpperChar a) = false.
Proof. intros [[] [] [] [] [] [] [] []]; reflexivity. Qed.

(** X1. Applying the length limit of [formatCaption] to its own result
    changes nothing, for every [maxChars], [0], negative or [NaN] included. *)
Theorem applyLimit_idempotent : forall m f,
  applyLimit m (applyLimit m f) = applyLimit m f.
Proof.
  intros [m|] f; [|reflexivity].
  destruct (Z.compare_spec m 0) as [->|Hm|Hm].
  - reflexivity.
  - rewrite !(applyLimit_neg m _ Hm); reflexivity.
  - apply applyLimit_fits, applyLimit_length, Hm.
Qed.

(** X2. Setting [maxChars] only ever cuts the caption: the caption with a
    limit is a prefix of the caption the same request gives without one. *)
Theorem processCaption_limit_is_prefix : forall rp nf p s m t,
  exists suf,
    processCaption rp nf p s None t = (processCaption rp nf p s m t ++ suf).
Proof.
  intros rp nf p s m t; unfold processCaption.
  rewrite (formatCaption_limit _ p s m).
  apply applyLimit_prefix, formatCaption_first.
Qed.

(** X3. A caption that fits into [maxChars] characters is left as it is. *)
Theorem processCaption_fits_unchanged : forall rp nf p s m t,
  (Z.of_nat (String.length (processCaption rp nf p s None t)) <= m)%Z ->
  processCaption rp nf p s (Some m) t = processCaption rp nf p s None t.
Proof.
  intros rp nf p s m t H; unfold processCaption in *.
  rewrite formatCaption_limit; apply applyLimit_fits, H.
Qed.

Lemma processCaption_fits_unchanged_witness :
  (Z.of_nat (String.length (process [] "" "" None "A red car.")) <= 20)%Z /\
  process [] "" "" (Some 20%Z) "A red car." = process [] "" "" None "A red car.".
Proof.
  split; [vm_compute; discriminate|].
  apply (processCaption_fits_unchanged removePhrase [] "" "" 20%Z "A red car.").
  vm_compute; discriminate.
Defined.

(** X4. [applyNegativeFilters] never returns text that starts or ends with
    a comma or whitespace, nor text that starts with a lowercase ASCII
    letter, whatever the filters and the phrase regex remove. *)
Theorem applyNegativeFilters_edges : forall rp c fs,
  firstSatisfies isCommaOrWs (applyNegativeFilters rp c fs) = false /\
  lastSatisfies isCommaOrWs (applyNegativeFilters rp c fs) = false /\
  firstSatisfies isAsciiLower (applyNegativeFilters rp c fs) = false.
Proof.
  intros rp c fs; unfold applyNegativeFilters.
  set (x := collapseCommas (collapseWs (removeFilters rp fs c))).
  pose proof (dropTrailing_first isCommaOrWs _ (dropLeading_first isCommaOrWs x)) as Hf.
  pose proof (dropTrailing_last isCommaOrWs (dropLeading isCommaOrWs x)) as Hl.
  destruct (dropTrailing isCommaOrWs (dropLeading isCommaOrWs x)) as [|a r];
    [repeat split|].
  simpl in Hf |- *; rewrite isCommaOrWs_toUpperChar, isAsciiLower_toUpperChar.
  refine (conj Hf (conj _ eq_refl)).
  destruct r; simpl in Hl |- *; exact Hl.
Qed.

Lemma substring_full : forall s, substring 0 (String.length s) s = s.
Proof. induction s as [|a s IH]; simpl; [reflexivity | now rewrite IH]. Qed.

Lemma error_caption_message : forall msg,
  substring 7 (String.length ("Error: " ++ msg) - 7) ("Error: " ++ msg) = msg.
Proof. intro msg; simpl; rewrite Nat.sub_0_r; apply substring_full. Qed.

Lemma readEvents_no_error : forall evs acc,
  (forall e, In e evs -> String.prefix "Error:" (caption e) = false) ->
  readEvents acc evs = Submitted (acc ++ evs).
Proof.
  induction evs as [|ev rest IH]; intros acc H; simpl; [now rewrite app_nil_r|].
  rewrite (H ev (or_introl eq_refl)), IH by (intros e He; apply H; right; exact He).
  now rewrite <- app_assoc.
Qed.

Lemma head_not_Error : forall d o,
  Ascii.eqb d "E" = false -> String.prefix "Error:" (String d o) = false.
Proof.
  intros d o H.
  change (String.prefix "Error:" (String d o))
    with (if ascii_dec "E" d then String.prefix "rror:" o else false).
  destruct (ascii_dec "E" d) as [<-|_]; [discriminate H | reflexivity].
Qed.

Lemma toLowerChar_not_E : forall a, Ascii.eqb (toLowerChar a) "E" = false.
Proof. intros [[] [] [] [] [] [] [] []]; reflexivity. Qed.

Lemma applyLimit_empty : forall m, applyLimit m "" = "".
Proof.
  intro m; destruct (applyLimit_prefix m "" eq_refl) as [suf E].
  destruct (applyLimit m ""); [reflexivity | discriminate E].
Qed.

Lemma normalized_not_Error : forall m y,
  (y = "" \/ exists d o, y = String d o /\ isWs d = false /\ Ascii.eqb d "E" = false) ->
  String.prefix "Error:" (applyLimit m (trim (collapseWs (replaceNewlines y)))) = false.
Proof.
  intros m y [->|[d [o [-> [Hw He]]]]].
  - change (trim (collapseWs (replaceNewlines ""))) with ""; now rewrite applyLimit_empty.
  - destruct (normalize_head d o Hw) as [r E]; rewrite E.
    destruct (applyLimit_head m d r Hw) as [E'|[z E']]; rewrite E';
      [reflexivity | apply head_not_Error, He].
Qed.

Lemma formatCaption_noprefix_not_Error : forall c p s m,
  dropLastIf isComma (trim p) = "" -> firstSatisfies isWs c = false ->
  String.prefix "Error:" (formatCaption c p s m) = false.
Proof.
  intros c p s m Hp Hc; unfold formatCaption; cbv zeta; rewrite Hp.
  assert (HY : forall t : string,
    (if String.eqb t "" then "" else ", " ++ t) = "" \/
    exists d o, (if String.eqb t "" then "" else ", " ++ t) = String d o /\
                isWs d = false /\ Ascii.eqb d "E" = false)
    by (intro t; destruct (String.eqb t ""); [left; reflexivity|];
        right; exists ","%char, (String " " t); repeat split).
  generalize (HY (dropFirstIf isComma (trim s))); clear HY.
  generalize (if String.eqb (dropFirstIf isComma (trim s)) "" then ""
              else ", " ++ dropFirstIf isComma (trim s)) as Y; intros Y HY.
  apply normalized_not_Error; cbn [String.eqb append].
  destruct c as [|a r]; [exact HY|]; simpl in Hc; cbn [lowerFirst].
  assert (Ha : isWs (toLowerChar a) = false) by (rewrite isWs_toLowerChar; exact Hc).
  destruct r as [|b t]; cbn [dropLastIf].
  - destruct (Ascii.eqb (toLowerChar a) "."); [exact HY|].
    right; eexists _, _; split; [reflexivity | split; [exact Ha | apply toLowerChar_not_E]].
  - right; eexists _, _; split; [reflexivity | split; [exact Ha | apply toLowerChar_not_E]].
Qed.

Lemma applyNegativeFilters_first : forall rp c fs,
  firstSatisfies isWs (applyNegativeFilters rp c fs) = false.
Proof.
  intros rp c fs; unfold applyNegativeFilters.
  set (x := collapseCommas (collapseWs (removeFilters rp fs c))).
  pose proof (dropTrailing_first isCommaOrWs _ (dropLeading_first isCommaOrWs x)) as Hf.
  destruct (dropTrailing isCommaOrWs (dropLeading isCommaOrWs x)) as [|a r]; [reflexivity|].
  simpl in Hf |- *; rewrite <- isCommaOrWs_toUpperChar in Hf.
  unfold isCommaOrWs in Hf; apply orb_false_iff in Hf; exact (proj2 Hf).
Qed.

(** X5. The client's reader stops at the first event whose caption starts
    with ["Error:"]: it reports the caption from its 8th character on, and
    the captions shown are exactly those before it; later events, error
    or not, are never read. *)
Theorem readEvents_stops_at_first_error : forall acc pre ev post,
  (forall e, In e pre -> String.prefix "Error:" (caption e) = false) ->
  String.prefix "Error:" (caption ev) = true ->
  readEvents acc (pre ++ ev :: post) =
    Failed (substring 7 (String.length (caption ev) - 7) (caption ev)) (acc ++ pre).
Proof. exact readEvents_first_error. Qed.

Lemma readEvents_stops_at_first_error_witness :
  (forall e, In e [mkEvent "a.txt" "a cat"] -> String.prefix "Error:" (caption e) = false) /\
  String.prefix "Error:" (caption (mkEvent "b.txt" "Error: rate limited")) = true /\
  readEvents [] ([mkEvent "a.txt" "a cat"] ++ mkEvent "b.txt" "Error: rate limited"
                  :: [mkEvent "c.txt" "a dog"]) =
    Failed "rate limited" [mkEvent "a.txt" "a cat"].
Proof.
  assert (Hpre : forall e, In e [mkEvent "a.txt" "a cat"] ->
                   String.prefix "Error:" (caption e) = false)
    by (intros e [<-|[]]; reflexivity).
  split; [exact Hpre | split; [reflexivity|]].
  exact (readEvents_stops_at_first_error [] [mkEvent "a.txt" "a cat"]
           (mkEvent "b.txt" "Error: rate limited") [mkEvent "c.txt" "a dog"] Hpre eq_refl).
Defined.

(** X6. When the generation for image [k] throws an [Error] and none of the
    events before it reads as an error, the client shows the first [k]
    captions and reports that error's message, although the server goes on
    with the remaining images: it sends one event per image, the [j]-th
    being the result of processing image [j], after [k] as before it. *)
Theorem runBatch_client_first_error : forall rp bn gen nf p s m images k img msg,
  nth_error images k = Some img ->
  gen k img = Threw (ThrownError msg) ->
  (forall j e, (j < k)%nat -> nth_error (runBatch rp bn gen nf p s m images) j = Some e ->
               String.prefix "Error:" (caption e) = false) ->
  readEvents [] (runBatch rp bn gen nf p s m images) =
    Failed msg (firstn k (runBatch rp bn gen nf p s m images)) /\
  length (runBatch rp bn gen nf p s m images) = length images /\
  (forall j img', nth_error images j = Some img' ->
     nth_error (runBatch rp bn gen nf p s m images) j = Some (itemEvent rp bn gen nf p s m j img')).
Proof.
  intros rp bn gen nf p s m images k img msg Himg Hgen Hbefore.
  split; [|split; [apply runFrom_length | intros j img' Hj; unfold runBatch; rewrite runFrom_nth, Hj; reflexivity]].
  set (evs := runBatch rp bn gen nf p s m images) in *.
  assert (Hk : nth_error evs k = Some (itemEvent rp bn gen nf p s m k img))
    by (unfold evs, runBatch; rewrite runFrom_nth, Himg; reflexivity).
  destruct (nth_error_split evs k Hk) as [l1 [l2 [Heq Hlen]]].
  assert (Hcap : caption (itemEvent rp bn gen nf p s m k img) = "Error: " ++ msg)
    by (unfold itemEvent; rewrite Hgen; reflexivity).
  rewrite Heq at 1; rewrite readEvents_first_error.
  - rewrite Hcap, error_caption_message, Heq, firstn_app, <- Hlen, firstn_all,
      Nat.sub_diag; simpl; now rewrite app_nil_r.
  - intros e He; destruct (In_nth_error l1 e He) as [j Hj].
    assert (Hjl : (j < length l1)%nat) by (apply nth_error_Some; rewrite Hj; discriminate).
    apply (Hbefore j e); [lia|].
    rewrite Heq, nth_error_app1 by exact Hjl; exact Hj.
  - rewrite Hcap; reflexivity.
Qed.

Lemma runBatch_client_first_error_witness :
  nth_error sampleImages 2 = Some (sampleImage "three.png") /\
  sampleGenerate 2 (sampleImage "three.png") = Threw (ThrownError "rate limited") /\
  readEvents [] (runBatch removePhrase stripExtension sampleGenerate [] "" "" None sampleImages) =
    Failed "rate limited"
      (firstn 2 (runBatch removePhrase stripExtension sampleGenerate [] "" "" None sampleImages)) /\
  length (runBatch removePhrase stripExtension sampleGenerate [] "" "" None sampleImages) =
    length sampleImages /\
  (forall j img', nth_error sampleImages j = Some img' ->
     nth_error (runBatch removePhrase stripExtension sampleGenerate [] "" "" None sampleImages) j =
       Some (itemEvent removePhrase stripExtension sampleGenerate [] "" "" None j img')).
Proof.
  split; [reflexivity | split; [reflexivity|]].
  apply (runBatch_client_first_error removePhrase stripExtension sampleGenerate [] "" "" None
           sampleImages 2 (sampleImage "three.png") "rate limited" eq_refl eq_refl).
  intros j e Hj He; destruct j as [|[|j]]; [| |lia];
    vm_compute in He; injection He as <-; reflexivity.
Defined.

(** X7. With a non-empty list of negative filters and no caption prefix, a
    successfully generated caption never starts with ["Error:"]: when every
    generation of a batch succeeds, the client receives every event and
    submits all captions. *)
Theorem runBatch_client_all_submitted : forall rp bn gen nf p s m images,
  nf <> [] -> dropLastIf isComma (trim p) = "" ->
  (forall k img, nth_error images k = Some img -> exists t, gen k img = Generated t) ->
  readEvents [] (runBatch rp bn gen nf p s m images) =
    Submitted (runBatch rp bn gen nf p s m images).
Proof.
  intros rp bn gen nf p s m images Hnf Hp Hok.
  apply readEvents_no_error; intros e He.
  destruct (In_nth_error _ e He) as [j Hj].
  unfold runBatch in Hj; rewrite runFrom_nth in Hj.
  destruct (nth_error images j) as [img|] eqn:Himg; [|discriminate Hj].
  injection Hj as <-; destruct (Hok j img Himg) as [t Ht].
  unfold itemEvent; rewrite Ht; cbn [caption plus].
  unfold processCaption; destruct nf as [|f fs]; [contradiction|].
  apply formatCaption_noprefix_not_Error; [exact Hp | apply applyNegativeFilters_first].
Qed.

Lemma runBatch_client_all_submitted_witness :
  let gen := fun (_ : nat) (_ : ImageFile) => Generated " Error: the image shows a cat." in
  readEvents [] (runBatch removePhrase stripExtension gen ["the image shows"] "" "" None
                  sampleImages) =
    Submitted (runBatch removePhrase stripExtension gen ["the image shows"] "" "" None
                  sampleImages).
Proof.
  intro gen; apply runBatch_client_all_submitted;
    [discriminate | reflexivity | intros k img _; eexists; reflexivity].
Defined.

Lemma takeWhile_digits : forall d,
  takeWhileStr isDecDigit (NilEmpty.string_of_uint d) = NilEmpty.string_of_uint d.
Proof. induction d; simpl; rewrite ?IHd; reflexivity. Qed.

Lemma hexPrefix_digits : forall d, hexPrefix (NilEmpty.string_of_uint d) = None.
Proof. destruct d as [|d|d|d|d|d|d|d|d|d|d]; try reflexivity; destruct d; reflexivity. Qed.

Lemma dropLeading_digits : forall d,
  dropLeading isWs (NilEmpty.string_of_uint d) = NilEmpty.string_of_uint d.
Proof. destruct d; reflexivity. Qed.

Lemma splitSign_digits : forall d,
  splitSign (NilEmpty.string_of_uint d) = (1%Z, NilEmpty.string_of_uint d).
Proof. destruct d; reflexivity. Qed.

Lemma parseUnsigned_digits : forall d, d <> Decimal.Nil ->
  parseUnsigned (NilEmpty.string_of_uint d) = Some (Z.of_N (N.of_uint d)).
Proof.
  intros d Hd; unfold parseUnsigned; rewrite hexPrefix_digits, takeWhile_digits.
  replace (String.eqb (NilEmpty.string_of_uint d) "") with false
    by (destruct d; [contradiction | reflexivity ..]).
  rewrite NilEmpty.usu; reflexivity.
Qed.

Lemma to_uint_pos_not_nil : forall p, N.to_uint (Npos p) <> Decimal.Nil.
Proof.
  intros p E; pose proof (DecimalN.Unsigned.of_to (Npos p)) as H.
  rewrite E in H; discriminate H.
Qed.

Lemma unsignedToString_small : forall p,
  (Zpos p < 10 ^ 21)%Z -> unsignedToString p = decimalDigits p.
Proof. intros p H; unfold unsignedToString; apply Z.ltb_lt in H; rewrite H; reflexivity. Qed.

Lemma unsignedToString_large : forall p,
  (10 ^ 21 <= Zpos p)%Z -> unsignedToString p = exponentForm (decimalDigits p).
Proof.
  intros p H; unfold unsignedToString.
  destruct (Z.ltb_spec (Zpos p) (10 ^ 21)) as [Hlt|_]; [|reflexivity].
  exfalso; exact (proj1 (Z.le_ngt _ _) H Hlt).
Qed.

Lemma to_uint_pos_head : forall p u, N.to_uint (Npos p) <> Decimal.D0 u.
Proof.
  intros p u E.
  pose proof (DecimalN.Unsigned.to_of (N.to_uint (Npos p))) as H.
  rewrite DecimalN.Unsigned.of_to, E in H; unfold Decimal.unorm in H.
  destruct (Decimal.nzhead (Decimal.D0 u)) as [|u'|u'|u'|u'|u'|u'|u'|u'|u'|u'] eqn:Ez;
    try discriminate H.
  - injection H as ->; pose proof (DecimalN.Unsigned.of_to (Npos p)) as H'.
    rewrite E in H'; discriminate H'.
  - exact (DecimalFacts.nzhead_nonzero _ _ Ez).
Qed.

Lemma parseInt_exponentForm : forall u,
  u <> Decimal.Nil -> (forall u', u <> Decimal.D0 u') ->
  exists d, (1 <= d <= 9)%Z /\ parseInt (exponentForm (NilEmpty.string_of_uint u)) = Some d.
Proof.
  intros [|u|u|u|u|u|u|u|u|u|u] Hn H0;
    [contradiction | exfalso; exact (H0 u eq_refl) | ..];
    unfold exponentForm; cbn [NilEmpty.string_of_uint]; cbv zeta;
    destruct (String.eqb _ ""); eexists; (split; [|reflexivity]); split; discriminate.
Qed.

Lemma parseInt_numberToString : forall n,
  (Z.abs n < 2 ^ 53)%Z -> parseInt (numberToString n) = Some n.
Proof.
  intros [|p|p] H; [reflexivity| |].
  - unfold parseInt, numberToString.
    rewrite unsignedToString_small by (eapply Z.lt_trans; [exact H | reflexivity]).
    unfold decimalDigits.
    rewrite dropLeading_digits, splitSign_digits; cbv beta iota.
    rewrite parseUnsigned_digits, DecimalN.Unsigned.of_to by apply to_uint_pos_not_nil.
    reflexivity.
  - unfold parseInt, numberToString.
    rewrite unsignedToString_small by (eapply Z.lt_trans; [exact H | reflexivity]).
    unfold decimalDigits.
    change (dropLeading isWs (String "-" (NilEmpty.string_of_uint (N.to_uint (Npos p)))))
      with (String "-" (NilEmpty.string_of_uint (N.to_uint (Npos p)))).
    change (splitSign (String "-" (NilEmpty.string_of_uint (N.to_uint (Npos p)))))
      with ((-1)%Z, NilEmpty.string_of_uint (N.to_uint (Npos p))); cbv beta iota.
    rewrite parseUnsigned_digits, DecimalN.Unsigned.of_to by apply to_uint_pos_not_nil.
    reflexivity.
Qed.

Lemma parseInt_numberToString_large : forall n,
  (10 ^ 21 <= n)%Z -> exists d, (1 <= d <= 9)%Z /\ parseInt (numberToString n) = Some d.
Proof.
  intros [|p|p] H; [exfalso; apply H; reflexivity | | exfalso; apply H; reflexivity].
  unfold numberToString; rewrite unsignedToString_large by exact H; unfold decimalDigits.
  apply parseInt_exponentForm; [apply to_uint_pos_not_nil | apply to_uint_pos_head].
Qed.

Lemma numberToString_nonempty : forall n, String.eqb (numberToString n) "" = false.
Proof.
  intros [|p|p]; [reflexivity | |reflexivity].
  unfold numberToString, unsignedToString, decimalDigits.
  destruct (N.to_uint (Npos p)) eqn:E;
    [exfalso; exact (to_uint_pos_not_nil p E) | destruct (_ <? _)%Z; reflexivity ..].
Qed.

Lemma routeMaxChars_clientField : forall v f,
  (forall n, v = Some n -> (Z.abs n < 2 ^ 53)%Z) ->
  applyLimit (routeMaxChars (clientMaxCharsField v)) f = applyLimit v f.
Proof.
  intros [n|] f Hv; [|reflexivity].
  unfold clientMaxCharsField; destruct (Z.eqb_spec n 0) as [->|Hn]; [reflexivity|].
  unfold routeMaxChars; rewrite numberToString_nonempty, parseInt_numberToString
    by (apply Hv; reflexivity).
  reflexivity.
Qed.

(** X8. The [maxChars] the form sends ([maxChars.toString()], nothing for
    [0] or no value) is read back by the route's [parseInt] as the same
    number for every safe integer ([|n| < 2^53]), and the route then
    applies exactly the form's limit to every caption; but from [10^21]
    on, which the form's schema admits, [toString] gives the exponent
    form ["1e+21"] and the like, which [parseInt] reads as its first
    digit: the route cuts at 1 to 9 characters. *)
Theorem maxChars_form_route_roundtrip :
  (forall n, (Z.abs n < 2 ^ 53)%Z -> parseInt (numberToString n) = Some n) /\
  (forall n, (10 ^ 21 <= n)%Z ->
     exists d, (1 <= d <= 9)%Z /\ parseInt (numberToString n) = Some d /\
               routeMaxChars (clientMaxCharsField (Some n)) = Some d) /\
  (forall v f, (forall n, v = Some n -> (Z.abs n < 2 ^ 53)%Z) ->
     applyLimit (routeMaxChars (clientMaxCharsField v)) f = applyLimit v f).
Proof.
  split; [exact parseInt_numberToString|]. split; [|exact routeMaxChars_clientField].
  intros n H; destruct (parseInt_numberToString_large n H) as [d [Hd E]].
  exists d; split; [exact Hd|]; split; [exact E|].
  unfold clientMaxCharsField, routeMaxChars.
  replace (n =? 0)%Z with false
    by (symmetry; apply Z.eqb_neq; intros ->; apply H; reflexivity).
  rewrite numberToString_nonempty; exact E.
Qed.

Lemma maxChars_form_route_roundtrip_witness :
  parseInt (numberToString 500) = Some 500%Z /\
  parseInt (numberToString (10 ^ 21)) = Some 1%Z /\
  routeMaxChars (clientMaxCharsField (Some (10 ^ 21)%Z)) = Some 1%Z /\
  applyLimit (routeMaxChars (clientMaxCharsField (Some 10%Z))) "a caption of some length" =
    applyLimit (Some 10%Z) "a caption of some length".
Proof.
  destruct maxChars_form_route_roundtrip as [H1 [H2 H3]].
  split; [apply H1; reflexivity|].
  destruct (H2 (10 ^ 21)%Z (Z.le_refl _)) as [d [_ [E1 E2]]].
  assert (Ed : d = 1%Z) by (vm_compute in E1; injection E1 as <-; reflexivity).
  subst d; split; [exact E1 | split; [exact E2|]].
  apply H3; intros n Hn; injection Hn as <-; reflexivity.
Defined.

(** X9. A negative [maxChars] sent to the route empties every caption: the
    cut [substring(0, maxChars)] keeps nothing. *)
Theorem negative_maxChars_empties_caption : forall rp nf p s field m t,
  parseInt field = Some m -> (m < 0)%Z ->
  processCaption rp nf p s (routeMaxChars (Some field)) t = "".
Proof.
  intros rp nf p s field m t Hm Hneg.
  assert (Hr : routeMaxChars (Some field) = Some m).
  { unfold routeMaxChars; destruct (String.eqb_spec field "") as [->|_]; [discriminate Hm|exact Hm]. }
  rewrite Hr; unfold processCaption; rewrite formatCaption_limit; apply applyLimit_neg, Hneg.
Qed.

Lemma negative_maxChars_empties_caption_witness :
  parseInt " -20" = Some (-20)%Z /\ (-20 < 0)%Z /\
  process [] "TOK" "" (routeMaxChars (Some " -20")) "A red car." = "".
Proof.
  split; [reflexivity | split; [lia|]].
  apply (negative_maxChars_empties_caption removePhrase [] "TOK" "" " -20" (-20)%Z "A red car.");
    [reflexivity | lia].
Defined.

(** X10. The only request the [POST] handler rejects is an OpenAI request
    (any [service] but ["ollama"]) without a key, neither in the form nor
    in the environment (or an empty one); it is then answered with the
    error ["OpenAI API key is required"] and nothing else. *)
Theorem POST_rejects_only_missing_key : forall env bn gt form,
  (POST env bn gt form = BadRequest "OpenAI API key is required" <->
     orDefault (f_service form) "openai" <> "ollama" /\
     (routeApiKey env form = None \/ routeApiKey env form = Some "")) /\
  (forall msg, POST env bn gt form = BadRequest msg -> msg = "OpenAI API key is required").
Proof.
  intros env bn gt form; unfold POST.
  destruct (String.eqb_spec (orDefault (f_service form) "openai") "ollama") as [Hs|Hs].
  - split; [split; [discriminate | intros [H _]; contradiction] | intros msg H; discriminate H].
  - destruct (routeApiKey env form) as [k|].
    + destruct (String.eqb_spec k "") as [->|Hk].
      * split; [split; [intros _; split; [exact Hs | right; reflexivity] | reflexivity]|].
        intros msg H; injection H as <-; reflexivity.
      * split; [split; [discriminate | intros [_ [H|H]]; [discriminate H | injection H as H; contradiction]]|].
        intros msg H; discriminate H.
    + split; [split; [intros _; split; [exact Hs | left; reflexivity] | reflexivity]|].
      intros msg H; injection H as <-; reflexivity.
Qed.

Lemma append_api_nonempty : forall x, String.eqb (x ++ "/api") "" = false.
Proof. intros [|a x]; reflexivity. Qed.

(** X11. An Ollama request needs no API key and is never rejected; its
    client's base URL is always the [ollamaUrl] field followed by ["/api"]
    (["null/api"] when the field is missing): the fallback
    ['http://localhost:11434/api'] of the [||] is never taken. *)
Theorem POST_ollama_base_url : forall env bn gt form,
  f_service form = Some "ollama" ->
  POST env bn gt form =
    let client := OllamaClient
      ((match f_ollamaUrl form with Some u => u | None => "null" end) ++ "/api") in
    EventStream client (routeEvents bn gt client form).
Proof.
  intros env bn gt form Hs; unfold POST; rewrite Hs; cbn [orDefault String.eqb].
  unfold routeOllamaBase; rewrite append_api_nonempty; reflexivity.
Qed.

Lemma POST_ollama_base_url_witness :
  let form := mkRequestForm [sampleImage "one.png"] None None None None (Some "ollama")
                (Some "llava") None None None None None in
  let gt := fun (_ : Client) (_ _ _ _ : string) (_ : nat) (_ : ImageFile) =>
              Generated "A cat." in
  f_service form = Some "ollama" /\
  POST None stripExtension gt form =
    EventStream (OllamaClient "null/api") [mkEvent "one.txt" "a cat"].
Proof.
  intros form gt; split; [reflexivity|].
  rewrite (POST_ollama_base_url None stripExtension gt form eq_refl); reflexivity.
Defined.

Lemma find_In_promptStyles : forall id st,
  getPromptStyle id = Some st -> In st promptStyles /\ ps_id st = id.
Proof.
  intros id st H; apply find_some in H as [Hin Heq].
  split; [exact Hin | apply String.eqb_eq, Heq].
Qed.

(** X12. The negative filters the route applies: every phrase is free of
    regex syntax, so the unescaped [RegExp] of [applyNegativeFilters]
    matches it literally; and filters are applied exactly when the request
    names a style of the catalog. *)
Theorem route_negative_filters : forall field,
  forallb noRegexSyntax (routeNegativeFilters field) = true /\
  (routeNegativeFilters field <> [] <->
     exists st, In st promptStyles /\ field = Some (ps_id st)).
Proof.
  intro field; split; [|split].
  - unfold routeNegativeFilters; destruct (String.eqb _ ""); [reflexivity|].
    destruct (getPromptStyle _) as [st|] eqn:E; [|reflexivity].
    destruct (find_In_promptStyles _ _ E) as [Hin _].
    simpl in Hin; repeat destruct Hin as [<-|Hin]; try contradiction; vm_compute; reflexivity.
  - unfold routeNegativeFilters; intro Hne.
    destruct (String.eqb_spec (orDefault field "") "") as [_|Hf]; [contradiction|].
    destruct (getPromptStyle (orDefault field "")) as [st|] eqn:E; [|contradiction].
    destruct (find_In_promptStyles _ _ E) as [Hin Hid].
    exists st; split; [exact Hin|].
    destruct field as [s|]; [|contradiction].
    unfold orDefault in Hid, Hf; destruct (String.eqb_spec s "") as [->|_]; [contradiction|].
    rewrite Hid; reflexivity.
  - intros [st [Hin ->]].
    simpl in Hin; repeat destruct Hin as [<-|Hin]; try contradiction; vm_compute; discriminate.
Qed.

(** X13. Style ids are unique: looking a catalog style up by its id gives
    that style back. *)
Theorem getPromptStyle_by_id : forall st,
  In st promptStyles -> getPromptStyle (ps_id st) = Some st.
Proof.
  intros st Hin; simpl in Hin; repeat destruct Hin as [<-|Hin]; try contradiction; reflexivity.
Qed.

Lemma getPromptStyle_by_id_witness :
  In (mkPromptStyle "nano-banana-tags" Tags (Some 150%Z) (Some commonMetaPhrasesList))
     promptStyles /\
  getPromptStyle "nano-banana-tags" =
    Some (mkPromptStyle "nano-banana-tags" Tags (Some 150%Z) (Some commonMetaPhrasesList)).
Proof.
  assert (Hin : In (mkPromptStyle "nano-banana-tags" Tags (Some 150%Z) (Some commonMetaPhrasesList))
                   promptStyles) by (vm_compute; tauto).
  split; [exact Hin | exact (getPromptStyle_by_id _ Hin)].
Defined.

Lemma ModelType_eqb_eq : forall x y, ModelType_eqb x y = true <-> x = y.
Proof. intros [] []; split; intro H; try reflexivity; discriminate H. Qed.

Lemma arrayFromSet_fold : forall xs acc,
  NoDup acc ->
  NoDup (fold_left (fun acc x => if existsb (ModelType_eqb x) acc then acc else (acc ++ [x])%list)
           xs acc) /\
  (forall y, In y (fold_left (fun acc x => if existsb (ModelType_eqb x) acc then acc
                                             else (acc ++ [x])%list) xs acc) <->
             In y acc \/ In y xs).
Proof.
  induction xs as [|x xs IH]; intros acc Hnd; simpl.
  - split; [exact Hnd | intro y; tauto].
  - destruct (existsb (ModelType_eqb x) acc) eqn:E.
    + destruct (IH acc Hnd) as [Hn Hi]; split; [exact Hn|].
      apply existsb_exists in E as [z [Hz Hxz]]; apply ModelType_eqb_eq in Hxz; subst z.
      intro y; rewrite Hi; split; [tauto|]; intros [H|[<-|H]]; tauto.
    + assert (Hx : ~ In x acc).
      { intro H; assert (existsb (ModelType_eqb x) acc = true) as E'
          by (apply existsb_exists; exists x; split; [exact H | apply ModelType_eqb_eq; reflexivity]).
        rewrite E in E'; discriminate E'. }
      assert (Hnd' : NoDup (acc ++ [x])).
      { apply NoDup_app; [exact Hnd | constructor; [intros []|constructor] |].
        intros a Ha [<-|[]]; contradiction. }
      destruct (IH (acc ++ [x])%list Hnd') as [Hn Hi]; split; [exact Hn|].
      intro y; rewrite Hi, in_app_iff; simpl; tauto.
Qed.

(** X14. [getAvailableModelTypes] lists every model type of the template
    catalog once: no duplicates, and a type is listed exactly when some
    template has it. *)
Theorem getAvailableModelTypes_spec : forall captionTemplates,
  NoDup (getAvailableModelTypes captionTemplates) /\
  (forall mt, In mt (getAvailableModelTypes captionTemplates) <->
              exists t, In t captionTemplates /\ t_modelType t = mt).
Proof.
  intro ts; unfold getAvailableModelTypes, arrayFromSet.
  destruct (arrayFromSet_fold (map t_modelType ts) [] (NoDup_nil _)) as [Hn Hi].
  split; [exact Hn|]; intro mt; rewrite Hi, in_map_iff; simpl.
  split; [intros [[]|[t [H1 H2]]]; exists t; split; assumption|].
  intros [t [H1 H2]]; right; exists t; split; assumption.
Qed.

(** X15. A request the OpenAI form submits is never rejected by the route:
    it gets an OpenAI client with the form's key, and, for a safe integer
    [maxChars] ([|n| < 2^53]), the route cuts captions at exactly the
    form's [maxChars]. *)
Theorem openAISubmit_accepted : forall k data form env bn gt,
  openAISubmit (Some k) data = inr form ->
  (forall n, ov_maxChars data = Some n -> (Z.abs n < 2 ^ 53)%Z) ->
  POST env bn gt form = EventStream (OpenAIClient k) (routeEvents bn gt (OpenAIClient k) form) /\
  (forall f, applyLimit (routeMaxChars (f_maxChars form)) f = applyLimit (ov_maxChars data) f).
Proof.
  intros k data form env bn gt H Hsafe; unfold openAISubmit in H.
  destruct (ov_images data); [discriminate H|].
  destruct (String.eqb_spec k "") as [_|Hk]; [discriminate H|].
  injection H as <-; split; [|intro f; apply routeMaxChars_clientField; exact Hsafe].
  assert (Ek : String.eqb k "" = false) by (apply String.eqb_neq; exact Hk).
  unfold POST, routeApiKey; cbv beta iota zeta delta [f_service f_apiKey orDefault].
  rewrite Ek; cbv beta iota; rewrite ?Ek; reflexivity.
Qed.

Lemma openAISubmit_accepted_witness :
  let data := mkOpenAIFormValues [sampleImage "one.png"] None None None None (Some "gpt-4o")
                None (Some "flux-semantic") (Some 500%Z) in
  let gt := fun (_ : Client) (_ _ _ _ : string) (_ : nat) (_ : ImageFile) =>
              Generated "This image shows a cat." in
  (forall n, ov_maxChars data = Some n -> (Z.abs n < 2 ^ 53)%Z) /\
  openAISubmit (Some "sk-test") data = inr
    (mkRequestForm [sampleImage "one.png"] (Some "") (Some "") (Some "") (Some "")
       (Some "openai") (Some "gpt-4o") (Some "auto") (Some "sk-test") None
       (Some "500") (Some "flux-semantic")) /\
  POST None stripExtension gt
    (mkRequestForm [sampleImage "one.png"] (Some "") (Some "") (Some "") (Some "")
       (Some "openai") (Some "gpt-4o") (Some "auto") (Some "sk-test") None
       (Some "500") (Some "flux-semantic")) =
    EventStream (OpenAIClient "sk-test") [mkEvent "one.txt" "a cat"].
Proof.
  intros data gt.
  assert (H : openAISubmit (Some "sk-test") data = inr
    (mkRequestForm [sampleImage "one.png"] (Some "") (Some "") (Some "") (Some "")
       (Some "openai") (Some "gpt-4o") (Some "auto") (Some "sk-test") None
       (Some "500") (Some "flux-semantic"))) by (vm_compute; reflexivity).
  assert (Hsafe : forall n, ov_maxChars data = Some n -> (Z.abs n < 2 ^ 53)%Z)
    by (intros n Hn; unfold data in Hn; simpl in Hn; injection Hn as <-; reflexivity).
  split; [exact Hsafe|]. split; [exact H|].
  rewrite (proj1 (openAISubmit_accepted "sk-test" data _ None stripExtension gt H Hsafe)).
  vm_compute; reflexivity.
Defined.

Lemma collapseWsFrom_app : forall x b y,
  wsCollapsed x = true -> (b = true -> firstSatisfies isWs x = false) ->
  lastSatisfies isWs x = false -> x <> "" ->
  collapseWsFrom b (x ++ y) = x ++ collapseWsFrom false y.
Proof.
  induction x as [|a r IH]; intros b y Hc Hb Hl Hne; [contradiction|].
  simpl in Hc; apply andb_true_iff in Hc as [Ha Hr].
  assert (Hlr : r <> "" -> lastSatisfies isWs r = false)
    by (intro Hn; destruct r; [contradiction | exact Hl]).
  simpl; destruct (isWs a) eqn:Ew.
  - apply andb_true_iff in Ha as [Esp Hf]; apply Ascii.eqb_eq in Esp; subst a.
    destruct b; [specialize (Hb eq_refl); simpl in Hb; discriminate Hb|].
    destruct r as [|c r']; [simpl in Hl; rewrite Ew in Hl; discriminate Hl|].
    apply negb_true_iff in Hf.
    rewrite IH; [reflexivity | exact Hr | intros _; exact Hf | apply Hlr; discriminate | discriminate].
  - destruct r as [|c r']; [reflexivity|].
    rewrite IH; [reflexivity | exact Hr | discriminate | apply Hlr; discriminate | discriminate].
Qed.

Lemma dropLeading_app_nows : forall x y,
  firstSatisfies isWs x = false -> x <> "" -> dropLeading isWs (x ++ y) = x ++ y.
Proof. intros [|a x] y H Hne; [contradiction|]; simpl in *; rewrite H; reflexivity. Qed.

(** X16. A prefix made of a single-spaced trigger word or phrase is kept
    as it is at the front of every caption (without [maxChars]), followed
    by a comma: [formatCaption] joins it to the caption with [', '] and
    the whitespace normalisation never reaches into it. *)
Theorem prefix_kept_verbatim : forall rp nf p s t,
  dropLastIf isComma (trim p) <> "" ->
  noNewline (dropLastIf isComma (trim p)) = true ->
  wsCollapsed (dropLastIf isComma (trim p)) = true ->
  lastSatisfies isWs (dropLastIf isComma (trim p)) = false ->
  exists r, processCaption rp nf p s None t = (dropLastIf isComma (trim p) ++ String "," r).
Proof.
  intros rp nf p s t Hne Hnl Hwc Hlast.
  set (tp := dropLastIf isComma (trim p)) in *.
  assert (Hfirst : firstSatisfies isWs tp = false).
  { destruct tp as [|c r] eqn:E; [contradiction|].
    destruct (dropLastIf_first _ _ _ _ E) as [r' E']; exact (trim_first _ _ _ E'). }
  unfold processCaption, formatCaption; cbv zeta; fold tp.
  replace (String.eqb tp "") with false by (symmetry; apply String.eqb_neq; exact Hne).
  cbv beta iota; cbn [applyLimit].
  match goal with
  | |- context [replaceNewlines ((tp ++ ", ") ++ ?X)] =>
      rewrite replaceNewlines_app, replaceNewlines_app, replaceNewlines_id by exact Hnl;
      rewrite append_assoc_str;
      change (replaceNewlines ", " ++ replaceNewlines X) with (String "," (String " " (replaceNewlines X)))
  end.
  unfold collapseWs; rewrite collapseWsFrom_app by (exact Hwc || discriminate || exact Hlast || exact Hne).
  unfold trim; rewrite dropLeading_app_nows by assumption.
  cbn [collapseWsFrom isWs].
  change (isWs ",") with false; cbv iota.
  match goal with
  | |- context [dropTrailing isWs (tp ++ String "," ?Z)] =>
      destruct (dropTrailing_head isWs "," Z eq_refl) as [z Hz];
      rewrite (dropTrailing_app isWs tp (String "," Z)) by (rewrite Hz; discriminate);
      rewrite Hz; exists z; reflexivity
  end.
Qed.

Lemma prefix_kept_verbatim_witness :
  dropLastIf isComma (trim "  TOK woman, ") <> "" /\
  noNewline (dropLastIf isComma (trim "  TOK woman, ")) = true /\
  wsCollapsed (dropLastIf isComma (trim "  TOK woman, ")) = true /\
  lastSatisfies isWs (dropLastIf isComma (trim "  TOK woman, ")) = false /\
  exists r, process ["this image shows"] "  TOK woman, " "" None "This image shows a red car." =
            ("TOK woman" ++ String "," r).
Proof.
  split; [vm_compute; discriminate | split; [reflexivity | split; [reflexivity | split; [reflexivity|]]]].
  exact (prefix_kept_verbatim removePhrase ["this image shows"] "  TOK woman, " ""
           "This image shows a red car." ltac:(vm_compute; discriminate) eq_refl eq_refl eq_refl).
Defined.
